(** * setup-envshed: the fetch, validate, mask and deliver pipeline

    A shallow embedding of [src/main.ts] (functions [getInputs], [buildUrl],
    [formatEnvFile] and [run]) together with the properties the
    specification states about them.

    Conventions.
    - A JavaScript string is the list of its UTF-16 code units ([jsstring]).
    - A function that may throw returns a [Completion].
    - [run] is effectful: it is a computation in a small trace-and-throw
      monad ([Action]) whose trace records, in order, every call that leaves
      the program (HTTP request, [core.setSecret], [core.exportVariable],
      [fs.writeFileSync], [core.info], [core.warning]). *)

From Stdlib Require Import NArith ZArith List String Ascii DecimalString Lia Bool.
From stdpp Require Import base option list gmap strings.
Import ListNotations.

Local Open Scope N_scope.

(** ** JavaScript strings *)

(** One UTF-16 code unit, [0 .. 0xFFFF]. *)
Definition codeunit := N.

Definition jsstring := list codeunit.

(** An ASCII literal of the source text, as code units. *)
Definition js (s : string) : jsstring :=
  List.map N_of_ascii (list_ascii_of_string s).

Definition BACKSLASH : codeunit := 92.
Definition QUOTE : codeunit := 34.
Definition LF : codeunit := 10.
Definition CR : codeunit := 13.
Definition EQUALS : codeunit := 61.
Definition SLASH : codeunit := 47.
Definition PERCENT : codeunit := 37.
Definition LOWER_N : codeunit := 110.
Definition LOWER_R : codeunit := 114.

Definition jsstring_eqb (a b : jsstring) : bool := bool_decide (a = b).

(** [s === ""] is false exactly on the non-empty strings. *)
Definition is_empty (s : jsstring) : bool :=
  match s with [] => true | _ :: _ => false end.

(** [needle] occurs in [hay] as a contiguous run of code units
    ([String.prototype.includes]). *)
Definition occurs_in (needle hay : jsstring) : Prop :=
  exists pre post, hay = pre ++ needle ++ post.

(** [Array.prototype.join]. *)
Fixpoint join (sep : jsstring) (parts : list jsstring) : jsstring :=
  match parts with
  | [] => []
  | [p] => p
  | p :: rest => p ++ sep ++ join sep rest
  end.

(** Template-literal rendering of a non-negative integer [Number]. *)
Definition N_to_js (n : N) : jsstring :=
  js (NilEmpty.string_of_uint (N.to_uint n)).

(** Template-literal rendering of a [Number] that holds the integer [z]:
    the decimal digits, with a minus sign when negative. This is what
    JavaScript prints while the integer is a safe one (at most [2^53 - 1] in
    absolute value); beyond that a Number no longer holds every integer and
    is printed rounded or with an exponent, so the properties that spell the
    text of a version assume a safe integer. *)
Definition Z_to_js (z : Z) : jsstring :=
  match z with
  | Z0 => js "0"
  | Zpos p => N_to_js (Npos p)
  | Zneg p => js "-" ++ N_to_js (Npos p)
  end.

(** ** formatEnvFile (main.ts, lines 40-53) *)

(** [s.replace(/c/g, by)] for a pattern that is the single code unit [c] and
    a replacement text [by] without [$]: every occurrence of [c], left to
    right, is replaced by [by]; the other code units are kept. *)
Definition replaceAll (c : codeunit) (by_ : jsstring) (s : jsstring) : jsstring :=
  flat_map (fun x => if N.eqb x c then by_ else [x]) s.

(** The chain of four [replace] calls of lines 44-48, in source order. *)
Definition escapeValue (value : jsstring) : jsstring :=
  replaceAll CR [BACKSLASH; LOWER_R]
    (replaceAll LF [BACKSLASH; LOWER_N]
      (replaceAll QUOTE [BACKSLASH; QUOTE]
        (replaceAll BACKSLASH [BACKSLASH; BACKSLASH] value))).

(** [Object.entries(secrets)]: the own properties of the object, in the
    object's iteration order. *)
Definition JsRecord := list (jsstring * jsstring).

Definition formatEntry (entry : jsstring * jsstring) : jsstring :=
  let '(key, value) := entry in
  key ++ [EQUALS; QUOTE] ++ escapeValue value ++ [QUOTE].

Definition formatEnvFile (secrets : JsRecord) : jsstring :=
  join [LF] (List.map formatEntry secrets) ++ [LF].

(** The reader of the env-file value syntax: the inverse rule of the escaping.
    It is not part of main.ts; it is the decoder the specification's
    round-trip property speaks of. It scans left to right; a backslash
    together with the code unit after it stands for one code unit
    ([\n] for a newline, [\r] for a carriage return, otherwise the code unit
    itself, which covers [\\] and the escaped double quote). *)
Fixpoint unescapeValue (s : jsstring) : jsstring :=
  match s with
  | [] => []
  | c :: rest =>
      if N.eqb c BACKSLASH then
        match rest with
        | [] => [c]
        | d :: rest' =>
            (if N.eqb d LOWER_N then LF else if N.eqb d LOWER_R then CR else d)
              :: unescapeValue rest'
        end
      else c :: unescapeValue rest
  end.

(** The escaping, one code unit at a time. *)
Definition escapeUnit (c : codeunit) : jsstring :=
  if N.eqb c BACKSLASH then [BACKSLASH; BACKSLASH]
  else if N.eqb c QUOTE then [BACKSLASH; QUOTE]
  else if N.eqb c LF then [BACKSLASH; LOWER_N]
  else if N.eqb c CR then [BACKSLASH; LOWER_R]
  else [c].

(** ** encodeURIComponent (ECMAScript, Encode with the unreserved set) *)

Definition between (lo hi c : N) : bool := N.leb lo c && N.leb c hi.

(** uriAlpha, DecimalDigit and uriMark: the code units that are copied. *)
Definition uriUnescaped (c : codeunit) : bool :=
  between 65 90 c || between 97 122 c || between 48 57 c
  || bool_decide (c ∈ [45; 95; 46; 33; 126; 42; 39; 40; 41]).

Definition isLeadingSurrogate (c : codeunit) : bool := between 0xD800 0xDBFF c.
Definition isTrailingSurrogate (c : codeunit) : bool := between 0xDC00 0xDFFF c.

(** UTF16SurrogatePairToCodePoint. *)
Definition surrogatePair (lead trail : codeunit) : N :=
  (lead - 0xD800) * 0x400 + (trail - 0xDC00) + 0x10000.

(** The UTF-8 octets of a code point. *)
Definition utf8 (cp : N) : list N :=
  if N.ltb cp 0x80 then [cp]
  else if N.ltb cp 0x800 then
    [N.lor 0xC0 (N.shiftr cp 6); N.lor 0x80 (N.land cp 0x3F)]
  else if N.ltb cp 0x10000 then
    [N.lor 0xE0 (N.shiftr cp 12);
     N.lor 0x80 (N.land (N.shiftr cp 6) 0x3F);
     N.lor 0x80 (N.land cp 0x3F)]
  else
    [N.lor 0xF0 (N.shiftr cp 18);
     N.lor 0x80 (N.land (N.shiftr cp 12) 0x3F);
     N.lor 0x80 (N.land (N.shiftr cp 6) 0x3F);
     N.lor 0x80 (N.land cp 0x3F)].

(** One digit of [0123456789ABCDEF]. *)
Definition hexDigit (d : N) : codeunit :=
  if N.ltb d 10 then 48 + d else 55 + d.

(** An octet as [%XX], upper-case. *)
Definition percentOctet (o : N) : jsstring :=
  [PERCENT; hexDigit (N.land (N.shiftr o 4) 15); hexDigit (N.land o 15)].

Definition percentOctets (os : list N) : jsstring := flat_map percentOctet os.

(** [None] stands for the URIError that an unpaired surrogate raises. *)
Fixpoint encodeURIComponent (s : jsstring) : option jsstring :=
  match s with
  | [] => Some []
  | c :: rest =>
      if uriUnescaped c then cons c <$> encodeURIComponent rest
      else if isLeadingSurrogate c then
        match rest with
        | d :: rest' =>
            if isTrailingSurrogate d
            then app (percentOctets (utf8 (surrogatePair c d)))
                   <$> encodeURIComponent rest'
            else None
        | [] => None
        end
      else if isTrailingSurrogate c then None
      else app (percentOctets (utf8 c)) <$> encodeURIComponent rest
  end.

(** ** Exceptions and effects *)

(** What a [throw] carries. [Error] is [new Error(message)], the only kind
    main.ts and the input reader create; [URIError] comes from
    [encodeURIComponent]; [Foreign] is whatever the HTTP client or the file
    system raises. *)
Inductive Exn :=
| Error (message : jsstring)
| URIError
| Foreign (what : jsstring).

Inductive Completion (A : Type) :=
| Return (a : A)
| Throw (e : Exn).
Arguments Return {A} a.
Arguments Throw {A} e.

(** The calls that leave the program, as the trace records them. *)
Inductive Event :=
| HttpGetJson (url authorization accept : jsstring)
| SetSecret (value : jsstring)
| ExportVariable (key value : jsstring)
| WriteFileSync (path content : jsstring)
| Info (message : jsstring)
| Warning (message : jsstring).

(** A computation: the calls made so far and how it ended. *)
Definition Action (A : Type) : Type := list Event * Completion A.

Definition ret {A} (a : A) : Action A := ([], Return a).

Definition throw {A} (e : Exn) : Action A := ([], Throw e).

Definition emit (e : Event) : Action unit := ([e], Return tt).

Definition lift {A} (c : Completion A) : Action A := ([], c).

Definition bind {A B} (m : Action A) (k : A -> Action B) : Action B :=
  match m with
  | (tr, Return a) => let '(tr', r) := k a in (tr ++ tr', r)
  | (tr, Throw e) => (tr, Throw e)
  end.

Notation "x <~ m ;; k" := (bind m (fun x => k))
  (at level 100, m at next level, right associativity).
Notation "m ;;; k" := (bind m (fun _ => k))
  (at level 100, right associativity).

(** [for (const entry of entries) body(entry)]. *)
Fixpoint forOf {A} (entries : list A) (body : A -> Action unit) : Action unit :=
  match entries with
  | [] => ret tt
  | entry :: rest => body entry ;;; forOf rest body
  end.

(** [if (cond) statement] without an else branch. *)
Definition when (cond : bool) (m : Action unit) : Action unit :=
  if cond then m else ret tt.

Definition trace {A} (m : Action A) : list Event := fst m.
Definition outcome {A} (m : Action A) : Completion A := snd m.

(** ** The data of main.ts (lines 6-22) *)

Record EnvshedResponse := {
  secrets : option JsRecord;           (* [None]: the field is missing *)
  placeholders : list jsstring;
  version : Z;
  linkedKeys : option (list jsstring);
  decryptErrors : option (list jsstring)
}.

Record ActionInputs := {
  token : jsstring;
  org : jsstring;
  project : jsstring;
  environment : jsstring;
  apiUrl : jsstring;
  exportTo : jsstring;
  filePath : jsstring
}.

(** What [client.getJson] resolves to; [result] is [None] for [null]. *)
Record TypedResponse := {
  statusCode : N;
  result : option EnvshedResponse
}.

(** What a call into the HTTP client or the file system comes back with:
    its value, or a failure of its own (connection reset, TLS, a full disk). *)
Inductive External (A : Type) :=
| Done (a : A)
| Failed (what : jsstring).
Arguments Done {A} a.
Arguments Failed {A} what.

(** A failure of an external call propagates as a thrown [Foreign]. *)
Definition external {A} (x : External A) : Action A :=
  match x with
  | Done a => ret a
  | Failed what => throw (Foreign what)
  end.

(** The surroundings of one run: the action's inputs as the runner holds
    them (it passes them as environment variables, which Node decodes to
    well-formed strings), the server behind the HTTP client (given the URL
    and the Authorization header), [path.resolve] and the file system. *)
Record Host := {
  inputs : gmap string jsstring;
  getJson : jsstring -> jsstring -> External TypedResponse;
  resolve : jsstring -> jsstring;
  writeFileSync : jsstring -> jsstring -> External unit
}.

(** ** getInputs (main.ts, lines 24-34) *)

(** WhiteSpace and LineTerminator of ECMAScript: what [trim] removes. *)
Definition isWhiteSpace (c : codeunit) : bool :=
  bool_decide (c ∈ [0x9; 0xA; 0xB; 0xC; 0xD; 0x20; 0xA0; 0x1680;
                    0x2028; 0x2029; 0x202F; 0x205F; 0x3000; 0xFEFF])
  || between 0x2000 0x200A c.

Fixpoint trimStart (s : jsstring) : jsstring :=
  match s with
  | [] => []
  | c :: rest => if isWhiteSpace c then trimStart rest else s
  end.

Definition trimEnd (s : jsstring) : jsstring := rev (trimStart (rev s)).

(** [String.prototype.trim]. *)
Definition trim (s : jsstring) : jsstring := trimEnd (trimStart s).

(** [core.getInput(name, { required })] of the runner's toolkit, which is
    what main.ts calls: an input without an entry reads as the empty string;
    a required input that reads as the empty string throws; the value is
    returned with the white space around it trimmed. The check of a required
    input looks at the value before the trim. (The test double of
    __tests__/main.test.ts, lines 48-56, is the same without the trim.) *)
Definition getInput (src : gmap string jsstring) (name : string)
    (required : bool) : Completion jsstring :=
  let val := default [] (src !! name) in
  if required && is_empty val
  then Throw (Error (js "Input required and not supplied: " ++ js name))
  else Return (trim val).

(** [a || b] on strings: the empty string is the only falsy one. *)
Definition orElse (a b : jsstring) : jsstring :=
  if is_empty a then b else a.

Definition andThen {A B} (c : Completion A) (k : A -> Completion B)
    : Completion B :=
  match c with
  | Return a => k a
  | Throw e => Throw e
  end.

Notation "x <- c ;;; k" := (andThen c (fun x => k))
  (at level 100, c at next level, right associativity).

(** The fields of the object literal are evaluated top to bottom. *)
Definition getInputs (src : gmap string jsstring) : Completion ActionInputs :=
  token_ <- getInput src "token" true ;;;
  org_ <- getInput src "org" true ;;;
  project_ <- getInput src "project" true ;;;
  environment_ <- getInput src "environment" false ;;;
  apiUrl_ <- getInput src "api-url" false ;;;
  exportTo_ <- getInput src "export-to" false ;;;
  filePath_ <- getInput src "file-path" false ;;;
  Return {| token := token_;
            org := org_;
            project := project_;
            environment := orElse environment_ (js "production");
            apiUrl := orElse apiUrl_ (js "https://app.envshed.com");
            exportTo := orElse exportTo_ (js "env");
            filePath := orElse filePath_ (js ".env") |}.

(** ** buildUrl (main.ts, lines 36-38) *)

Definition encodeSlug (slug : jsstring) : Completion jsstring :=
  match encodeURIComponent slug with
  | Some e => Return e
  | None => Throw URIError
  end.

Definition buildUrl (cfg : ActionInputs) : Completion jsstring :=
  org_ <- encodeSlug (org cfg) ;;;
  project_ <- encodeSlug (project cfg) ;;;
  environment_ <- encodeSlug (environment cfg) ;;;
  Return (apiUrl cfg ++ js "/api/v1/secrets/" ++ org_ ++ [SLASH]
            ++ project_ ++ [SLASH] ++ environment_).

(** ** run (main.ts, lines 55-121) *)

(** The message of lines 59-61. *)
Definition invalidExportTo (value : jsstring) : jsstring :=
  js "Invalid export-to value: " ++ [QUOTE] ++ value ++ [QUOTE]
    ++ js ". Must be " ++ [QUOTE] ++ js "env" ++ [QUOTE]
    ++ js " or " ++ [QUOTE] ++ js "file" ++ [QUOTE] ++ js ".".

(** The message of lines 75-78. *)
Definition fetchFailed (status : N) : jsstring :=
  js "Failed to fetch secrets from Envshed (HTTP " ++ N_to_js status
    ++ js "). "
    ++ js "Verify your token, org, project, and environment are correct.".

(** The message of lines 82-84. *)
Definition missingSecrets : jsstring :=
  js "Unexpected response from Envshed API: missing secrets field.".

(** The message of lines 90-92. *)
Definition notDecrypted (names : list jsstring) : jsstring :=
  js "Some secrets could not be decrypted: " ++ join (js ", ") names.

Definition noSecrets : jsstring :=
  js "No secrets found for the specified environment.".

(** The message of lines 118-120. *)
Definition loaded (count : nat) (version_ : Z) : jsstring :=
  js "Loaded " ++ N_to_js (N.of_nat count) ++ js " secret"
    ++ (if Nat.eqb count 1 then [] else js "s")
    ++ js " from Envshed (v" ++ Z_to_js version_ ++ js ").".

(** [decryptErrors && decryptErrors.length > 0]. *)
Definition hasDecryptErrors (body : EnvshedResponse) : bool :=
  match decryptErrors body with
  | Some (_ :: _) => true
  | _ => false
  end.

(** Lines 103-106: the loop of the "env" mode. *)
Definition exportEntries (entries : JsRecord) : Action unit :=
  forOf entries (fun '(key, value) =>
    when (negb (is_empty value)) (emit (SetSecret value)) ;;;
    emit (ExportVariable key value)).

(** Lines 108-110: the loop of the "file" mode. *)
Definition maskEntries (entries : JsRecord) : Action unit :=
  forOf entries (fun '(_, value) =>
    when (negb (is_empty value)) (emit (SetSecret value))).

(** Lines 112-115. *)
Definition writeEnvFile (h : Host) (cfg : ActionInputs) (secrets_ : JsRecord)
    : Action unit :=
  let envContent := formatEnvFile secrets_ in
  let resolvedPath := resolve h (filePath cfg) in
  emit (WriteFileSync resolvedPath envContent) ;;;
  external (writeFileSync h resolvedPath envContent) ;;;
  emit (Info (js "Wrote secrets to " ++ resolvedPath)).

(** Lines 87-120: what follows the two checks of the response. *)
Definition deliverPayload (h : Host) (cfg : ActionInputs) (body : EnvshedResponse)
    (secrets_ : JsRecord) : Action unit :=
  when (hasDecryptErrors body)
    (emit (Warning (notDecrypted (default [] (decryptErrors body))))) ;;;
  let entries := secrets_ in
  if Nat.eqb (length entries) 0 then emit (Warning noSecrets)
  else
    (if jsstring_eqb (exportTo cfg) (js "env")
     then exportEntries entries
     else maskEntries entries ;;; writeEnvFile h cfg secrets_) ;;;
    emit (Info (loaded (length entries) (version body))).

Definition bearer (cfg : ActionInputs) : jsstring := js "Bearer " ++ token cfg.

Definition ACCEPT : jsstring := js "application/json".

(** Lines 64-72: the client with its two headers, the URL, the request. *)
Definition fetch (h : Host) (cfg : ActionInputs) : Action TypedResponse :=
  url <~ lift (buildUrl cfg) ;;
  emit (HttpGetJson url (bearer cfg) ACCEPT) ;;;
  external (getJson h url (bearer cfg)).

(** Lines 74-85: the two checks of the response, then the delivery. *)
Definition checkResponse (h : Host) (cfg : ActionInputs)
    (response : TypedResponse) : Action unit :=
  if negb (N.eqb (statusCode response) 200)
  then throw (Error (fetchFailed (statusCode response)))
  else
    match result response with
    | None => throw (Error missingSecrets)
    | Some body =>
        match secrets body with
        | None => throw (Error missingSecrets)
        | Some secrets_ => deliverPayload h cfg body secrets_
        end
    end.

Definition run (h : Host) : Action unit :=
  cfg <~ lift (getInputs (inputs h)) ;;
  if negb (jsstring_eqb (exportTo cfg) (js "env"))
     && negb (jsstring_eqb (exportTo cfg) (js "file"))
  then throw (Error (invalidExportTo (exportTo cfg)))
  else
    response <~ fetch h cfg ;;
    checkResponse h cfg response.

(** ** Vocabulary of the properties *)

(** [String.prototype.isWellFormed]: no surrogate without its partner. *)
Fixpoint isWellFormed (s : jsstring) : bool :=
  match s with
  | [] => true
  | c :: rest =>
      if isLeadingSurrogate c then
        match rest with
        | d :: rest' => isTrailingSurrogate d && isWellFormed rest'
        | [] => false
        end
      else if isTrailingSurrogate c then false
      else isWellFormed rest
  end.

(** The code units an encoded component is made of. *)
Definition uriSafe (c : codeunit) : bool := uriUnescaped c || N.eqb c PERCENT.

(** The delimiters of RFC 3986 that encodeURIComponent escapes, and the
    space. The remaining ones, the marks [! ' ( ) *], are copied. *)
Definition escapedDelimiters : jsstring := js " /&?#=+:;@$,[]".

(** The same configuration with another token. *)
Definition withToken (t : jsstring) (cfg : ActionInputs) : ActionInputs :=
  {| token := t; org := org cfg; project := project cfg;
     environment := environment cfg; apiUrl := apiUrl cfg;
     exportTo := exportTo cfg; filePath := filePath cfg |}.

(** What the runner holds for an input: a name without an entry reads as
    the empty string. *)
Definition inputValue (src : gmap string jsstring) (name : string) : jsstring :=
  default [] (src !! name).

(** The run got as far as a response: the inputs were read, the delivery
    mode is one of the two, the URL was built and the client answered. *)
Definition Fetched (h : Host) (cfg : ActionInputs) (url : jsstring)
    (r : TypedResponse) : Prop :=
  getInputs (inputs h) = Return cfg
  /\ (exportTo cfg = js "env" \/ exportTo cfg = js "file")
  /\ buildUrl cfg = Return url
  /\ getJson h url (bearer cfg) = Done r.

(** The arguments of the [core.setSecret] calls of a trace, in order. *)
Definition maskCalls (tr : list Event) : list jsstring :=
  flat_map (fun e => match e with SetSecret v => [v] | _ => [] end) tr.

(** The values of a record that are not the empty string, in order. *)
Definition nonEmptyValues (secrets_ : JsRecord) : list jsstring :=
  List.filter (fun v => negb (is_empty v)) (List.map snd secrets_).

(** Every [core.exportVariable] of a non-empty value comes strictly after a
    [core.setSecret] of that value. *)
Definition maskedBeforeExport (tr : list Event) : Prop :=
  forall pre key value post,
    tr = pre ++ ExportVariable key value :: post ->
    value <> [] -> In (SetSecret value) pre.

(** Every [fs.writeFileSync] comes strictly after a [core.setSecret] of each
    of the values [vals]. *)
Definition maskedBeforeWrite (vals : list jsstring) (tr : list Event) : Prop :=
  forall pre path content post,
    tr = pre ++ WriteFileSync path content :: post ->
    forall value, In value vals -> In (SetSecret value) pre.

(** The trace of lines 103-106 for one entry. *)
Definition exportStep (entry : jsstring * jsstring) : list Event :=
  (if is_empty (snd entry) then [] else [SetSecret (snd entry)])
    ++ [ExportVariable (fst entry) (snd entry)].

(** The trace of lines 108-110 for one entry. *)
Definition maskStep (entry : jsstring * jsstring) : list Event :=
  if is_empty (snd entry) then [] else [SetSecret (snd entry)].

(** The warning of lines 89-93, when there is one. *)
Definition decryptWarning (body : EnvshedResponse) : list Event :=
  if hasDecryptErrors body
  then [Warning (notDecrypted (default [] (decryptErrors body)))]
  else [].

(** The field [v] of the configuration comes from the optional input [name]:
    the default when the input is unset (it reads as the empty string) or is
    white space only, the trimmed input otherwise. *)
Definition takesDefault (src : gmap string jsstring) (name : string)
    (dflt v : jsstring) : Prop :=
  (inputValue src name = [] -> v = dflt)
  /\ (trim (inputValue src name) = [] -> v = dflt)
  /\ (trim (inputValue src name) <> [] -> v = trim (inputValue src name)).

(** A safe integer ([Number.isSafeInteger]): a Number holds it exactly. *)
Definition safeInteger (z : Z) : Prop :=
  (- (2 ^ 53 - 1) <= z <= 2 ^ 53 - 1)%Z.

(** The same configuration with another org slug. *)
Definition withOrg (o : jsstring) (cfg : ActionInputs) : ActionInputs :=
  {| token := token cfg; org := o; project := project cfg;
     environment := environment cfg; apiUrl := apiUrl cfg;
     exportTo := exportTo cfg; filePath := filePath cfg |}.

(** ** Vocabulary of the further properties *)

(** How often the code unit [c] occurs in [s]. *)
Definition countUnit (c : codeunit) (s : jsstring) : nat :=
  length (List.filter (N.eqb c) s).

(** The four code units the escaping rewrites. *)
Definition isSpecial (c : codeunit) : bool :=
  N.eqb c BACKSLASH || N.eqb c QUOTE || N.eqb c LF || N.eqb c CR.

(** The property names of a record, in order. *)
Definition keysOf (r : JsRecord) : list jsstring := List.map fst r.

(** The percent-escapes of a code point: its UTF-8 octets, each as [%XX]. *)
Definition escapeCodePoint (cp : N) : jsstring := percentOctets (utf8 cp).

(** The code units a JavaScript string can hold. *)
Definition validUnits (s : jsstring) : Prop := Forall (fun c => c < 0x10000) s.

(** The same configuration with other slugs. *)
Definition withSlugs (o p e : jsstring) (cfg : ActionInputs) : ActionInputs :=
  {| token := token cfg; org := o; project := p; environment := e;
     apiUrl := apiUrl cfg; exportTo := exportTo cfg; filePath := filePath cfg |}.

(** The arguments of the [core.exportVariable] calls of a trace, in order. *)
Definition exportCalls (tr : list Event) : list (jsstring * jsstring) :=
  flat_map (fun e => match e with ExportVariable k v => [(k, v)] | _ => [] end) tr.

(** The arguments of the [fs.writeFileSync] calls of a trace, in order. *)
Definition writeCalls (tr : list Event) : list (jsstring * jsstring) :=
  flat_map (fun e => match e with WriteFileSync p c => [(p, c)] | _ => [] end) tr.

(** The messages of the [core.info] calls of a trace, in order. *)
Definition infoCalls (tr : list Event) : list jsstring :=
  flat_map (fun e => match e with Info m => [m] | _ => [] end) tr.

(** The messages of the [core.warning] calls of a trace, in order. *)
Definition warningCalls (tr : list Event) : list jsstring :=
  flat_map (fun e => match e with Warning m => [m] | _ => [] end) tr.

(** The requests of a trace, in order: URL and Authorization header. *)
Definition requestCalls (tr : list Event) : list (jsstring * jsstring) :=
  flat_map (fun e => match e with HttpGetJson u a _ => [(u, a)] | _ => [] end) tr.

(** The calls that hand a secret value on: mask, export, file write. *)
Definition isDelivery (e : Event) : bool :=
  match e with
  | SetSecret _ | ExportVariable _ _ | WriteFileSync _ _ => true
  | _ => false
  end.

(** The same payload without its list of decrypt errors. *)
Definition withoutDecryptErrors (body : EnvshedResponse) : EnvshedResponse :=
  {| secrets := secrets body; placeholders := placeholders body;
     version := version body; linkedKeys := linkedKeys body;
     decryptErrors := None |}.

(** The same surroundings with a server that answers [r] to every request. *)
Definition answering (r : TypedResponse) (h : Host) : Host :=
  {| inputs := inputs h; getJson := fun _ _ => Done r;
     resolve := resolve h; writeFileSync := writeFileSync h |}.

(** The same surroundings with another token input. *)
Definition withTokenInput (t : jsstring) (h : Host) : Host :=
  {| inputs := <["token"%string := t]> (inputs h); getJson := getJson h;
     resolve := resolve h; writeFileSync := writeFileSync h |}.

(** A call with its Authorization header blanked. *)
Definition redact (e : Event) : Event :=
  match e with
  | HttpGetJson url _ accept => HttpGetJson url [] accept
  | _ => e
  end.

(** ** The entry point (index.ts) *)

(** What the entry point does, as seen from outside: the calls of [run], and
    [core.setFailed]. *)
Inductive Notice :=
| Called (e : Event)
| SetFailed (message : jsstring).

(** The text the [catch] handler passes on: [error.message] of an Error,
    [String(error)] of anything else. The message of a URIError is the
    engine's own text, [uriError]; for a foreign failure, [what] is that
    text. *)
Definition messageOf (uriError : jsstring) (e : Exn) : jsstring :=
  match e with
  | Error message => message
  | URIError => uriError
  | Foreign what => what
  end.

(** [run().catch(error => core.setFailed(...))]. *)
Definition main (uriError : jsstring) (h : Host) : list Notice :=
  List.map Called (trace (run h))
    ++ match outcome (run h) with
       | Return _ => []
       | Throw e => [SetFailed (messageOf uriError e)]
       end.

(** ** Example surroundings *)

(** The inputs of a workflow step that sets the three required inputs, the
    delivery mode and the file path. *)
Definition exampleInputs (token_ mode : string) : gmap string jsstring :=
  {[ "token"%string := js token_;
     "org"%string := js "my-org";
     "project"%string := js "my-project";
     "export-to"%string := js mode;
     "file-path"%string := js "out.env" ]}.

(** A server that answers every request with the same response, a file
    system that accepts every write, and /work as working directory. *)
Definition exampleHost (token_ mode : string) (response : TypedResponse) : Host :=
  {| inputs := exampleInputs token_ mode;
     getJson := fun _ _ => Done response;
     resolve := fun p => js "/work/" ++ p;
     writeFileSync := fun _ _ => Done tt |}.

Definition exampleCfg (token_ mode : string) : ActionInputs :=
  {| token := js token_;
     org := js "my-org";
     project := js "my-project";
     environment := js "production";
     apiUrl := js "https://app.envshed.com";
     exportTo := js mode;
     filePath := js "out.env" |}.

Definition exampleUrl : jsstring :=
  js "https://app.envshed.com/api/v1/secrets/my-org/my-project/production".

Definition exampleSecrets : JsRecord :=
  [(js "DB_URL", js "postgres://localhost/db");
   (js "EMPTY", []);
   (js "SECRET", js "my-secret")].

Definition examplePayload (secrets_ : option JsRecord) : EnvshedResponse :=
  {| secrets := secrets_;
     placeholders := [];
     version := 1;
     linkedKeys := None;
     decryptErrors := None |}.

Definition exampleResponse (status : N) (body : option EnvshedResponse)
    : TypedResponse :=
  {| statusCode := status; result := body |}.

(** * Properties *)

(** ** The env-file format *)

Lemma replaceAll_app c r s t :
  replaceAll c r (s ++ t) = replaceAll c r s ++ replaceAll c r t.
Proof. unfold replaceAll. apply flat_map_app. Qed.

Lemma replaceAll_flat_map c r (f : codeunit -> jsstring) s :
  replaceAll c r (flat_map f s) = flat_map (fun x => replaceAll c r (f x)) s.
Proof.
  induction s as [|x s IH]; simpl; [reflexivity|].
  now rewrite replaceAll_app, IH.
Qed.

(** The four passes together act on each code unit on its own: the later
    passes never touch what an earlier pass wrote, because no replacement
    text contains a double quote, a newline or a carriage return that a
    later pass looks for, except the quote of pass two, which pass two
    itself writes. *)
Lemma escapeValue_units value : escapeValue value = flat_map escapeUnit value.
Proof.
  unfold escapeValue.
  unfold replaceAll at 4. rewrite !replaceAll_flat_map.
  apply flat_map_ext. intros c. unfold escapeUnit.
  destruct (N.eqb_spec c BACKSLASH) as [->|Hb]; [reflexivity|].
  destruct (N.eqb_spec c QUOTE) as [->|Hq]; [reflexivity|].
  destruct (N.eqb_spec c LF) as [->|Hl]; [reflexivity|].
  destruct (N.eqb_spec c CR) as [->|Hc]; [reflexivity|].
  unfold replaceAll; simpl.
  destruct (N.eqb_spec c QUOTE); [contradiction|]; simpl.
  destruct (N.eqb_spec c LF); [contradiction|]; simpl.
  destruct (N.eqb_spec c CR); [contradiction|]; reflexivity.
Qed.

Lemma unescapeValue_escapeUnit c rest :
  unescapeValue (escapeUnit c ++ rest) = c :: unescapeValue rest.
Proof.
  unfold escapeUnit.
  destruct (N.eqb_spec c BACKSLASH) as [->|Hb]; [reflexivity|].
  destruct (N.eqb_spec c QUOTE) as [->|Hq]; [reflexivity|].
  destruct (N.eqb_spec c LF) as [->|Hl]; [reflexivity|].
  destruct (N.eqb_spec c CR) as [->|Hc]; [reflexivity|].
  simpl. destruct (N.eqb_spec c BACKSLASH); [contradiction|reflexivity].
Qed.

Lemma unescapeValue_escapeValue value :
  unescapeValue (escapeValue value) = value.
Proof.
  rewrite escapeValue_units.
  induction value as [|c value IH]; [reflexivity|].
  simpl flat_map. now rewrite unescapeValue_escapeUnit, IH.
Qed.

Lemma escapeValue_inj v w : escapeValue v = escapeValue w -> v = w.
Proof.
  intros H. rewrite <- (unescapeValue_escapeValue v), H.
  apply unescapeValue_escapeValue.
Qed.

(** For a record that is not empty, joining with newlines and appending one
    is the same as ending every line with a newline. *)
Lemma formatEnvFile_lines entry rest :
  formatEnvFile (entry :: rest)
  = flat_map (fun e => formatEntry e ++ [LF]) (entry :: rest).
Proof.
  unfold formatEnvFile. revert entry.
  induction rest as [|e rest IH]; intros entry.
  { simpl. now rewrite app_nil_r. }
  change (List.map formatEntry (entry :: e :: rest))
    with (formatEntry entry :: List.map formatEntry (e :: rest)).
  change (join [LF] (formatEntry entry :: List.map formatEntry (e :: rest)))
    with (formatEntry entry ++ [LF]
            ++ join [LF] (List.map formatEntry (e :: rest))).
  rewrite <- !app_assoc, IH. simpl. now rewrite <- !app_assoc.
Qed.

(** Undoing the four passes one after the other, last pass first, is not
    the inverse rule: on the two code units backslash, n it answers
    backslash, newline. *)
Remark undo_passes_in_reverse_is_not_inverse :
  let undo (from : jsstring) (to : codeunit) :=
    fix go (s : jsstring) : jsstring :=
      match s with
      | a :: ((b :: rest) as tl) =>
          if jsstring_eqb [a; b] from then to :: go rest else a :: go tl
      | _ => s
      end in
  let v := [BACKSLASH; LOWER_N] in
  undo [BACKSLASH; BACKSLASH] BACKSLASH
    (undo [BACKSLASH; QUOTE] QUOTE
      (undo [BACKSLASH; LOWER_N] LF
        (undo [BACKSLASH; LOWER_R] CR (escapeValue v))))
  = [BACKSLASH; LF].
Proof. vm_compute. reflexivity. Qed.

(** C3. formatEnvFile writes each entry as KEY="escaped", where the value has
    gone through the four replacements in source order (backslash, double
    quote, newline, carriage return). The four passes together turn each
    backslash into two backslashes, each double quote into backslash and
    quote, each newline into backslash and n, each carriage return into
    backslash and r, and leave every other code unit as it is; a record that
    is not empty is written line by line, each line ended by a newline. The
    escaping round-trips: the inverse rule applied to the escaped value
    gives back the value, whatever mix of backslashes, quotes, newlines and
    carriage returns it holds. *)
Theorem formatEnvFile_escaping_roundtrips :
  forall (secrets_ : JsRecord) (value : jsstring),
    formatEnvFile secrets_
    = join [LF]
        (List.map
           (fun entry =>
              fst entry ++ [EQUALS; QUOTE]
                ++ replaceAll CR [BACKSLASH; LOWER_R]
                     (replaceAll LF [BACKSLASH; LOWER_N]
                       (replaceAll QUOTE [BACKSLASH; QUOTE]
                         (replaceAll BACKSLASH [BACKSLASH; BACKSLASH]
                            (snd entry))))
                ++ [QUOTE])
           secrets_)
      ++ [LF]
    /\ formatEnvFile secrets_
       = match secrets_ with
         | [] => [LF]
         | _ :: _ =>
             flat_map
               (fun entry =>
                  fst entry ++ [EQUALS; QUOTE]
                    ++ flat_map escapeUnit (snd entry) ++ [QUOTE; LF])
               secrets_
         end
    /\ escapeValue value = flat_map escapeUnit value
    /\ unescapeValue (escapeValue value) = value.
Proof.
  intros secrets_ value. split; [|split; [|split]].
  - unfold formatEnvFile. do 2 f_equal.
    apply map_ext. now intros [key v].
  - destruct secrets_ as [|entry rest]; [reflexivity|].
    rewrite formatEnvFile_lines. apply flat_map_ext. intros [key v].
    unfold formatEntry. rewrite escapeValue_units. cbn [fst snd].
    now rewrite <- !List.app_assoc.
  - apply escapeValue_units.
  - apply unescapeValue_escapeValue.
Qed.

(** C9. formatEnvFile of the empty record is the one-character string made
    of a newline. *)
Theorem formatEnvFile_empty : formatEnvFile [] = [LF].
Proof. reflexivity. Qed.

(** The cases of the repository's tests for formatEnvFile. *)
Example formatEnvFile_two_entries :
  formatEnvFile [(js "DB_URL", js "postgres://localhost:5432/db");
                 (js "API_KEY", js "sk_test_123")]
  = js "DB_URL=" ++ [QUOTE] ++ js "postgres://localhost:5432/db" ++ [QUOTE; LF]
      ++ js "API_KEY=" ++ [QUOTE] ++ js "sk_test_123" ++ [QUOTE; LF].
Proof. reflexivity. Qed.

Example formatEnvFile_backslashes :
  formatEnvFile [(js "PATH_VALUE", js "C:\Users\test")]
  = js "PATH_VALUE=" ++ [QUOTE] ++ js "C:\\Users\\test" ++ [QUOTE; LF].
Proof. reflexivity. Qed.

Example formatEnvFile_line_breaks :
  formatEnvFile
    [(js "MULTI_LINE", js "line1" ++ [LF] ++ js "line2" ++ [CR; LF] ++ js "line3")]
  = js "MULTI_LINE=" ++ [QUOTE] ++ js "line1\nline2\r\nline3" ++ [QUOTE; LF].
Proof. reflexivity. Qed.

(** ** The URL *)

Lemma between_spec lo hi c : between lo hi c = true <-> lo <= c <= hi.
Proof. unfold between. rewrite andb_true_iff, !N.leb_le. tauto. Qed.

Lemma surrogate_not_unescaped c :
  isLeadingSurrogate c || isTrailingSurrogate c = true ->
  uriUnescaped c = false.
Proof.
  unfold isLeadingSurrogate, isTrailingSurrogate.
  rewrite orb_true_iff, !between_spec. intros H.
  unfold uriUnescaped. rewrite !orb_false_iff. repeat split.
  - apply not_true_is_false. rewrite between_spec. lia.
  - apply not_true_is_false. rewrite between_spec. lia.
  - apply not_true_is_false. rewrite between_spec. lia.
  - apply bool_decide_eq_false. rewrite !elem_of_cons, elem_of_nil. lia.
Qed.

Lemma hexDigit_unescaped d : d < 16 -> uriUnescaped (hexDigit d) = true.
Proof.
  intros Hd. unfold hexDigit, uriUnescaped.
  rewrite !orb_true_iff, !between_spec.
  destruct (N.ltb_spec d 10); [left; right|left; left; left]; lia.
Qed.

Lemma land_15_lt n : N.land n 15 < 16.
Proof.
  change 15 with (N.ones 4). rewrite N.land_ones.
  apply N.mod_lt. discriminate.
Qed.

Lemma percentOctets_safe os : Forall (fun c => uriSafe c = true) (percentOctets os).
Proof.
  induction os as [|o os IH]; [constructor|].
  unfold percentOctets in *. simpl flat_map.
  constructor; [reflexivity|].
  constructor; [unfold uriSafe; now rewrite hexDigit_unescaped by apply land_15_lt|].
  constructor; [unfold uriSafe; now rewrite hexDigit_unescaped by apply land_15_lt|].
  exact IH.
Qed.

(** The recursion of the encoder steps over one or two code units, so the
    induction carries the statement for a list and for the list with one
    more code unit in front. *)
Lemma encodeURIComponent_safe_aux s :
  (forall e, encodeURIComponent s = Some e ->
     Forall (fun c => uriSafe c = true) e)
  /\ (forall c e, encodeURIComponent (c :: s) = Some e ->
     Forall (fun c => uriSafe c = true) e).
Proof.
  induction s as [|d s [IH0 IH1]].
  - split; [intros e [= <-]; constructor|].
    intros c e. simpl.
    destruct (uriUnescaped c) eqn:Hu.
    + intros [= <-]. repeat constructor. unfold uriSafe. now rewrite Hu.
    + destruct (isLeadingSurrogate c); [discriminate|].
      destruct (isTrailingSurrogate c); [discriminate|].
      intros [= <-]. rewrite app_nil_r. apply percentOctets_safe.
  - split; [exact (IH1 d)|].
    intros c e.
    change (encodeURIComponent (c :: d :: s)) with
      (if uriUnescaped c then cons c <$> encodeURIComponent (d :: s)
       else if isLeadingSurrogate c then
         if isTrailingSurrogate d
         then app (percentOctets (utf8 (surrogatePair c d)))
                <$> encodeURIComponent s
         else None
       else if isTrailingSurrogate c then None
       else app (percentOctets (utf8 c)) <$> encodeURIComponent (d :: s)).
    destruct (uriUnescaped c) eqn:Hu.
    + destruct (encodeURIComponent (d :: s)) as [e'|] eqn:He; [|discriminate].
      intros [= <-]. constructor; [unfold uriSafe; now rewrite Hu|].
      now apply (IH1 d).
    + destruct (isLeadingSurrogate c).
      * destruct (isTrailingSurrogate d); [|discriminate].
        destruct (encodeURIComponent s) as [e'|] eqn:He; [|discriminate].
        intros [= <-]. apply Forall_app. split; [apply percentOctets_safe|].
        now apply IH0.
      * destruct (isTrailingSurrogate c); [discriminate|].
        destruct (encodeURIComponent (d :: s)) as [e'|] eqn:He; [|discriminate].
        intros [= <-]. apply Forall_app. split; [apply percentOctets_safe|].
        now apply (IH1 d).
Qed.

Lemma encodeURIComponent_safe s e :
  encodeURIComponent s = Some e -> Forall (fun c => uriSafe c = true) e.
Proof. apply encodeURIComponent_safe_aux. Qed.

(** The encoder answers exactly on the well-formed strings. *)
Lemma encodeURIComponent_total_aux s :
  (isWellFormed s = true -> is_Some (encodeURIComponent s))
  /\ (forall c, isWellFormed (c :: s) = true ->
        is_Some (encodeURIComponent (c :: s))).
Proof.
  induction s as [|d s [IH0 IH1]].
  - split; [intros _; now eexists|].
    intros c. simpl.
    destruct (uriUnescaped c); [intros _; now eexists|].
    destruct (isLeadingSurrogate c); [discriminate|].
    destruct (isTrailingSurrogate c); [discriminate|].
    intros _; now eexists.
  - split; [exact (IH1 d)|].
    intros c.
    change (isWellFormed (c :: d :: s)) with
      (if isLeadingSurrogate c then isTrailingSurrogate d && isWellFormed s
       else if isTrailingSurrogate c then false
       else isWellFormed (d :: s)).
    change (encodeURIComponent (c :: d :: s)) with
      (if uriUnescaped c then cons c <$> encodeURIComponent (d :: s)
       else if isLeadingSurrogate c then
         if isTrailingSurrogate d
         then app (percentOctets (utf8 (surrogatePair c d)))
                <$> encodeURIComponent s
         else None
       else if isTrailingSurrogate c then None
       else app (percentOctets (utf8 c)) <$> encodeURIComponent (d :: s)).
    destruct (isLeadingSurrogate c) eqn:Hl.
    + rewrite (surrogate_not_unescaped c) by (now rewrite Hl).
      rewrite andb_true_iff. intros [-> Hs].
      destruct (IH0 Hs) as [e ->]. now eexists.
    + destruct (isTrailingSurrogate c) eqn:Ht; [discriminate|].
      intros Hs. destruct (IH1 d Hs) as [e ->].
      destruct (uriUnescaped c); now eexists.
Qed.

Lemma encodeURIComponent_total s :
  isWellFormed s = true -> exists e, encodeURIComponent s = Some e.
Proof. intros H. now apply encodeURIComponent_total_aux. Qed.

Lemma escapedDelimiters_not_safe c :
  In c escapedDelimiters -> uriSafe c = false.
Proof.
  unfold escapedDelimiters. simpl.
  intros H. repeat (destruct H as [<-|H]; [reflexivity|]). destruct H.
Qed.

Lemma buildUrl_withToken t cfg : buildUrl (withToken t cfg) = buildUrl cfg.
Proof. reflexivity. Qed.

(** ** Traces of the run *)

Lemma bind_emit {B} e (k : unit -> Action B) :
  bind (emit e) k = (e :: trace (k tt), outcome (k tt)).
Proof. unfold bind, emit, trace, outcome. now destruct (k tt). Qed.

Lemma exportEntries_trace entries :
  exportEntries entries = (flat_map exportStep entries, Return tt).
Proof.
  unfold exportEntries.
  induction entries as [|[key value] entries IH]; [reflexivity|].
  simpl forOf. rewrite IH. unfold exportStep. simpl.
  now destruct value.
Qed.

Lemma maskEntries_trace entries :
  maskEntries entries = (flat_map maskStep entries, Return tt).
Proof.
  unfold maskEntries.
  induction entries as [|[key value] entries IH]; [reflexivity|].
  simpl forOf. rewrite IH. unfold maskStep. simpl.
  now destruct value.
Qed.

Lemma maskCalls_app a b : maskCalls (a ++ b) = maskCalls a ++ maskCalls b.
Proof. apply flat_map_app. Qed.

Lemma maskCalls_export entries :
  maskCalls (flat_map exportStep entries) = nonEmptyValues entries.
Proof.
  induction entries as [|[key value] entries IH]; [reflexivity|].
  simpl flat_map. rewrite maskCalls_app, IH.
  unfold nonEmptyValues. simpl. now destruct value.
Qed.

Lemma maskCalls_mask entries :
  maskCalls (flat_map maskStep entries) = nonEmptyValues entries.
Proof.
  induction entries as [|[key value] entries IH]; [reflexivity|].
  simpl flat_map. rewrite maskCalls_app, IH.
  unfold nonEmptyValues. simpl. now destruct value.
Qed.

Lemma maskCalls_decryptWarning body : maskCalls (decryptWarning body) = [].
Proof. unfold decryptWarning. now destruct (hasDecryptErrors body). Qed.

(** Where an element of [a ++ b] sits. *)
Lemma split_app {A} (a b pre post : list A) x :
  a ++ b = pre ++ x :: post ->
  (exists post', a = pre ++ x :: post' /\ post = post' ++ b)
  \/ (exists pre', pre = a ++ pre' /\ b = pre' ++ x :: post).
Proof.
  revert pre. induction a as [|y a IH]; intros pre H.
  - right. exists pre. now split.
  - destruct pre as [|z pre]; simpl in H; injection H as -> H.
    + left. exists a. now split.
    + destruct (IH pre H) as [(post' & -> & ->)|(pre' & -> & ->)].
      * left. now exists post'.
      * right. now exists pre'.
Qed.

Lemma maskedBeforeExport_app a b :
  maskedBeforeExport a -> maskedBeforeExport b -> maskedBeforeExport (a ++ b).
Proof.
  intros Ha Hb pre key value post H Hv.
  destruct (split_app _ _ _ _ _ H) as [(post' & Hpre & _)|(pre' & -> & Hpre)].
  - now apply (Ha _ _ _ _ Hpre).
  - apply in_or_app. right. now apply (Hb _ _ _ _ Hpre).
Qed.

Lemma maskedBeforeExport_none tr :
  (forall key value, ~ In (ExportVariable key value) tr) ->
  maskedBeforeExport tr.
Proof.
  intros Hno pre key value post -> _.
  destruct (Hno key value). apply in_or_app. right. now left.
Qed.

Lemma maskedBeforeExport_step entry : maskedBeforeExport (exportStep entry).
Proof.
  destruct entry as [key value]. unfold exportStep. simpl.
  intros pre k v post H Hv. destruct value as [|c value]; simpl in H.
  - destruct pre as [|e [|e' pre]]; simpl in H; [|discriminate..].
    inversion H; subst. now destruct Hv.
  - destruct pre as [|e [|e' [|e'' pre]]]; simpl in H; [discriminate| |discriminate..].
    inversion H; subst. now left.
Qed.

Lemma maskedBeforeExport_entries entries :
  maskedBeforeExport (flat_map exportStep entries).
Proof.
  induction entries as [|entry entries IH].
  - apply maskedBeforeExport_none. intros ? ? [].
  - simpl. apply maskedBeforeExport_app; [apply maskedBeforeExport_step|exact IH].
Qed.

Lemma maskedBeforeWrite_none vals tr :
  (forall path content, ~ In (WriteFileSync path content) tr) ->
  maskedBeforeWrite vals tr.
Proof.
  intros Hno pre path content post -> value _.
  destruct (Hno path content). apply in_or_app. right. now left.
Qed.

(** A write that can only sit behind a prefix that masks all of [vals]. *)
Lemma maskedBeforeWrite_behind vals a b :
  (forall path content, ~ In (WriteFileSync path content) a) ->
  (forall value, In value vals -> In (SetSecret value) a) ->
  maskedBeforeWrite vals (a ++ b).
Proof.
  intros Hno Hall pre path content post H value Hv.
  destruct (split_app _ _ _ _ _ H) as [(post' & Hpre & _)|(pre' & -> & _)].
  - destruct (Hno path content). rewrite Hpre.
    apply in_or_app. right. now left.
  - apply in_or_app. left. now apply Hall.
Qed.

Lemma in_maskCalls v tr : In v (maskCalls tr) <-> In (SetSecret v) tr.
Proof.
  unfold maskCalls. rewrite in_flat_map. split.
  - intros (e & He & Hv). destruct e; simpl in Hv; try tauto.
    destruct Hv as [->|[]]. exact He.
  - intros H. exists (SetSecret v). split; [exact H|now left].
Qed.

Lemma jsstring_eqb_eq a b : jsstring_eqb a b = true <-> a = b.
Proof. unfold jsstring_eqb. apply bool_decide_eq_true. Qed.

Lemma jsstring_eqb_neq a b : jsstring_eqb a b = false <-> a <> b.
Proof. unfold jsstring_eqb. apply bool_decide_eq_false. Qed.

Lemma exportTo_accepted cfg :
  exportTo cfg = js "env" \/ exportTo cfg = js "file" ->
  negb (jsstring_eqb (exportTo cfg) (js "env"))
  && negb (jsstring_eqb (exportTo cfg) (js "file")) = false.
Proof.
  intros [H|H]; rewrite H.
  - reflexivity.
  - now rewrite andb_false_r.
Qed.

(** A run that got a response is the request followed by the checks. *)
Lemma run_fetched h cfg url r :
  Fetched h cfg url r ->
  run h = (HttpGetJson url (bearer cfg) ACCEPT :: trace (checkResponse h cfg r),
           outcome (checkResponse h cfg r)).
Proof.
  intros (Hin & Hmode & Hurl & Hget).
  unfold run. rewrite Hin. unfold lift at 1, bind at 1.
  rewrite (exportTo_accepted cfg Hmode).
  unfold fetch. rewrite Hurl. unfold lift, emit, bind.
  rewrite Hget.
  unfold external, ret, trace, outcome.
  now destruct (checkResponse h cfg r).
Qed.

(** The whole of lines 87-120, as a trace and an outcome. *)
Lemma deliverPayload_unfold h cfg body secrets_ :
  deliverPayload h cfg body secrets_
  = match secrets_ with
    | [] => (decryptWarning body ++ [Warning noSecrets], Return tt)
    | _ :: _ =>
        if jsstring_eqb (exportTo cfg) (js "env")
        then (decryptWarning body ++ flat_map exportStep secrets_
                ++ [Info (loaded (length secrets_) (version body))],
              Return tt)
        else
          let path := resolve h (filePath cfg) in
          let content := formatEnvFile secrets_ in
          match writeFileSync h path content with
          | Done _ =>
              (decryptWarning body ++ flat_map maskStep secrets_
                 ++ [WriteFileSync path content;
                     Info (js "Wrote secrets to " ++ path);
                     Info (loaded (length secrets_) (version body))],
               Return tt)
          | Failed what =>
              (decryptWarning body ++ flat_map maskStep secrets_
                 ++ [WriteFileSync path content],
               Throw (Foreign what))
          end
    end.
Proof.
  unfold deliverPayload, decryptWarning, when.
  destruct secrets_ as [|entry rest].
  - now destruct (hasDecryptErrors body).
  - change (Nat.eqb (length (entry :: rest)) 0) with false. cbv iota.
    destruct (jsstring_eqb (exportTo cfg) (js "env")).
    + rewrite exportEntries_trace.
      destruct (hasDecryptErrors body); unfold bind, emit, ret;
        cbv beta iota zeta; now rewrite ?app_nil_r.
    + rewrite maskEntries_trace. unfold writeEnvFile.
      destruct (writeFileSync h (resolve h (filePath cfg))
                  (formatEnvFile (entry :: rest))) as [[]|what];
        destruct (hasDecryptErrors body);
        unfold external, throw, bind, emit, ret; cbv beta iota zeta;
        rewrite ?app_nil_r, <- ?List.app_assoc; reflexivity.
Qed.

Lemma checkResponse_ok h cfg r body secrets_ :
  statusCode r = 200 -> result r = Some body -> secrets body = Some secrets_ ->
  checkResponse h cfg r = deliverPayload h cfg body secrets_.
Proof.
  intros Hs Hr Hsec. unfold checkResponse. now rewrite Hs, Hr, Hsec.
Qed.

Lemma in_decryptWarning e body :
  In e (decryptWarning body) -> exists m, e = Warning m.
Proof.
  unfold decryptWarning. destruct (hasDecryptErrors body); [|intros []].
  intros [<-|[]]. now eexists.
Qed.

Lemma in_maskSteps e entries :
  In e (flat_map maskStep entries) -> exists v, e = SetSecret v.
Proof.
  rewrite in_flat_map. intros ([key value] & _ & H).
  unfold maskStep in H. simpl in H.
  destruct (is_empty value); [destruct H|].
  destruct H as [<-|[]]. now eexists.
Qed.

Lemma in_exportSteps key value entries :
  In (key, value) entries ->
  In (ExportVariable key value) (flat_map exportStep entries).
Proof.
  intros H. rewrite in_flat_map. exists (key, value). split; [exact H|].
  unfold exportStep. apply in_or_app. right. now left.
Qed.

Ltac not_this_event :=
  match goal with
  | H : In _ (decryptWarning _) |- _ =>
      apply in_decryptWarning in H; destruct H; discriminate
  | H : In _ (flat_map maskStep _) |- _ =>
      apply in_maskSteps in H; destruct H; discriminate
  | H : In _ (_ ++ _) |- _ => apply in_app_or in H; destruct H; not_this_event
  | H : In _ (_ :: _) |- _ => destruct H as [H|H]; [discriminate|not_this_event]
  | H : In _ [] |- _ => destruct H
  end.

(** C1. For every validated payload, in both delivery modes: the values
    handed to core.setSecret are exactly the non-empty values of the secrets
    record (so there are as many mask calls as non-empty values); every
    non-empty value is masked strictly before it is exported, and all of
    them are masked strictly before the file is written. The exports and the
    write do take place: each entry is exported in the env mode, and the
    formatted record is written in the file mode. *)
Theorem secrets_masked_before_delivery :
  forall h cfg url r body secrets_,
    Fetched h cfg url r ->
    statusCode r = 200 ->
    result r = Some body ->
    secrets body = Some secrets_ ->
    let tr := trace (run h) in
    maskCalls tr = nonEmptyValues secrets_
    /\ length (maskCalls tr) = length (nonEmptyValues secrets_)
    /\ maskedBeforeExport tr
    /\ maskedBeforeWrite (nonEmptyValues secrets_) tr
    /\ (exportTo cfg = js "env" ->
        forall key value, In (key, value) secrets_ ->
          In (ExportVariable key value) tr)
    /\ (exportTo cfg = js "file" -> secrets_ <> [] ->
        In (WriteFileSync (resolve h (filePath cfg)) (formatEnvFile secrets_)) tr).
Proof.
  intros h cfg url r body secrets_ Hf Hs Hr Hsec tr.
  assert (Hmode : exportTo cfg = js "env" \/ exportTo cfg = js "file")
    by apply Hf.
  subst tr. rewrite (run_fetched _ _ _ _ Hf).
  rewrite (checkResponse_ok _ _ _ _ _ Hs Hr Hsec), deliverPayload_unfold.
  unfold trace.
  assert (Hmask : forall tr', maskCalls tr' = nonEmptyValues secrets_ ->
            length (maskCalls tr') = length (nonEmptyValues secrets_))
    by (intros tr' ->; reflexivity).
  destruct secrets_ as [|entry rest].
  { (* no entry: nothing to mask, nothing delivered *)
    cbn [fst].
    assert (Hm : maskCalls (HttpGetJson url (bearer cfg) ACCEPT
                   :: decryptWarning body ++ [Warning noSecrets]) = []).
    { change (maskCalls (decryptWarning body ++ [Warning noSecrets]) = []).
      now rewrite maskCalls_app, maskCalls_decryptWarning. }
    repeat split.
    - exact Hm.
    - now rewrite Hm.
    - apply maskedBeforeExport_none. intros key value H. not_this_event.
    - apply maskedBeforeWrite_none. intros path content H. not_this_event.
    - intros _ key value [].
    - intros _ Hne. now destruct Hne. }
  set (entries := entry :: rest) in *.
  destruct (jsstring_eqb (exportTo cfg) (js "env")) eqn:Henv.
  { (* the env mode *)
    cbn [fst].
    assert (Hm : maskCalls (HttpGetJson url (bearer cfg) ACCEPT
                   :: decryptWarning body ++ flat_map exportStep entries
                        ++ [Info (loaded (length entries) (version body))])
                 = nonEmptyValues entries).
    { change (maskCalls (decryptWarning body ++ flat_map exportStep entries
                ++ [Info (loaded (length entries) (version body))])
              = nonEmptyValues entries).
      rewrite !maskCalls_app, maskCalls_decryptWarning, maskCalls_export.
      apply app_nil_r. }
    repeat split.
    - exact Hm.
    - now apply Hmask.
    - apply (maskedBeforeExport_app [_]);
        [apply maskedBeforeExport_none; intros key value H; not_this_event|].
      apply maskedBeforeExport_app;
        [apply maskedBeforeExport_none; intros key value H; not_this_event|].
      apply maskedBeforeExport_app; [apply maskedBeforeExport_entries|].
      apply maskedBeforeExport_none; intros key value H; not_this_event.
    - apply maskedBeforeWrite_none. intros path content H.
      destruct H as [H|H]; [discriminate|].
      apply in_app_or in H. destruct H as [H|H]; [not_this_event|].
      apply in_app_or in H. destruct H as [H|H]; [|not_this_event].
      apply in_flat_map in H. destruct H as ([key value] & _ & H).
      unfold exportStep in H. simpl in H.
      destruct (is_empty value); simpl in H;
        repeat (destruct H as [H|H]; [discriminate|]); destruct H.
    - intros _ key value Hin. right. apply in_or_app. right.
      apply in_or_app. left. now apply in_exportSteps.
    - intros Hfile _. apply jsstring_eqb_eq in Henv.
      rewrite Hfile in Henv. discriminate. }
  (* the file mode *)
  assert (Hfile : exportTo cfg = js "file").
  { destruct Hmode as [H|H]; [|exact H].
    apply jsstring_eqb_neq in Henv. contradiction. }
  cbv zeta.
  assert (Hwrite : forall tail,
    maskCalls tail = [] ->
    (forall key value, ~ In (ExportVariable key value) tail) ->
    maskCalls (HttpGetJson url (bearer cfg) ACCEPT
      :: decryptWarning body ++ flat_map maskStep entries
           ++ WriteFileSync (resolve h (filePath cfg)) (formatEnvFile entries)
                :: tail)
    = nonEmptyValues entries).
  { intros tail Htail _.
    change (maskCalls (decryptWarning body ++ flat_map maskStep entries
              ++ WriteFileSync (resolve h (filePath cfg))
                   (formatEnvFile entries) :: tail) = nonEmptyValues entries).
    rewrite !maskCalls_app, maskCalls_decryptWarning, maskCalls_mask.
    change (maskCalls (WriteFileSync (resolve h (filePath cfg))
              (formatEnvFile entries) :: tail)) with (maskCalls tail).
    rewrite Htail. apply app_nil_r. }
  assert (Hgoal : forall tail,
    maskCalls tail = [] ->
    (forall key value, ~ In (ExportVariable key value) tail) ->
    let tr := HttpGetJson url (bearer cfg) ACCEPT
      :: decryptWarning body ++ flat_map maskStep entries
           ++ WriteFileSync (resolve h (filePath cfg)) (formatEnvFile entries)
                :: tail in
    maskCalls tr = nonEmptyValues entries
    /\ length (maskCalls tr) = length (nonEmptyValues entries)
    /\ maskedBeforeExport tr
    /\ maskedBeforeWrite (nonEmptyValues entries) tr
    /\ (exportTo cfg = js "env" ->
        forall key value, In (key, value) entries ->
          In (ExportVariable key value) tr)
    /\ (exportTo cfg = js "file" -> entries <> [] ->
        In (WriteFileSync (resolve h (filePath cfg)) (formatEnvFile entries)) tr)).
  { intros tail Htail Hnoexp tr. subst tr. repeat split.
    - now apply Hwrite.
    - apply Hmask. now apply Hwrite.
    - apply maskedBeforeExport_none. intros key value H.
      destruct H as [H|H]; [discriminate|].
      apply in_app_or in H. destruct H as [H|H]; [not_this_event|].
      apply in_app_or in H. destruct H as [H|H]; [not_this_event|].
      destruct H as [H|H]; [discriminate|]. now apply (Hnoexp key value).
    - change (maskedBeforeWrite (nonEmptyValues entries)
                ([HttpGetJson url (bearer cfg) ACCEPT]
                   ++ decryptWarning body ++ flat_map maskStep entries
                   ++ WriteFileSync (resolve h (filePath cfg))
                        (formatEnvFile entries) :: tail)).
      rewrite !List.app_assoc. rewrite <- (List.app_assoc [_]).
      apply maskedBeforeWrite_behind.
      + intros p c H. not_this_event.
      + intros value Hv. apply in_or_app. right. apply in_or_app. right.
        apply in_maskCalls. now rewrite maskCalls_mask.
    - intros Henv'. rewrite Henv' in Hfile. discriminate.
    - intros _ _. right. apply in_or_app. right. apply in_or_app. right.
      now left. }
  destruct (writeFileSync h (resolve h (filePath cfg)) (formatEnvFile entries))
    as [[]|what]; cbn [fst].
  - apply (Hgoal [_; _]); [reflexivity|].
    intros key value H. not_this_event.
  - apply (Hgoal []); [reflexivity|]. intros key value [].
Qed.

(** An instance of C1: the file mode, three entries of which one is empty. *)
Lemma secrets_masked_before_delivery_witness :
  let h := exampleHost "envshed_test_token_abc123" "file"
             (exampleResponse 200 (Some (examplePayload (Some exampleSecrets)))) in
  let cfg := exampleCfg "envshed_test_token_abc123" "file" in
  let r := exampleResponse 200 (Some (examplePayload (Some exampleSecrets))) in
  Fetched h cfg exampleUrl r
  /\ statusCode r = 200
  /\ result r = Some (examplePayload (Some exampleSecrets))
  /\ secrets (examplePayload (Some exampleSecrets)) = Some exampleSecrets
  /\ maskCalls (trace (run h)) = [js "postgres://localhost/db"; js "my-secret"]
  /\ maskedBeforeWrite (nonEmptyValues exampleSecrets) (trace (run h))
  /\ In (WriteFileSync (js "/work/out.env") (formatEnvFile exampleSecrets))
       (trace (run h)).
Proof.
  intros h cfg r.
  assert (F : Fetched h cfg exampleUrl r).
  { unfold Fetched. split; [vm_compute; reflexivity|].
    split; [right; reflexivity|].
    split; [vm_compute; reflexivity|reflexivity]. }
  refine (conj F (conj eq_refl (conj eq_refl (conj eq_refl _)))).
  destruct (secrets_masked_before_delivery h cfg exampleUrl r _ _ F
              eq_refl eq_refl eq_refl) as (Hm & _ & _ & Hw & _ & Hf).
  split; [exact Hm|]. split; [exact Hw|].
  apply Hf; [reflexivity|discriminate].
Defined.

(** ** The checks of the run *)

(** C6. When the export-to value of the configuration is neither "env" nor
    "file", the run throws the invalid export-to error that quotes the
    value, and its trace is empty: no HTTP request, no mask, no export and
    no file write has taken place. *)
Theorem invalid_exportTo_fails_before_network :
  forall h cfg,
    getInputs (inputs h) = Return cfg ->
    exportTo cfg <> js "env" ->
    exportTo cfg <> js "file" ->
    run h
    = ([], Throw (Error
         (js "Invalid export-to value: " ++ [QUOTE] ++ exportTo cfg ++ [QUOTE]
            ++ js ". Must be " ++ [QUOTE] ++ js "env" ++ [QUOTE]
            ++ js " or " ++ [QUOTE] ++ js "file" ++ [QUOTE] ++ js "."))).
Proof.
  intros h cfg Hin Henv Hfile. unfold run. rewrite Hin.
  unfold lift, bind.
  apply jsstring_eqb_neq in Henv. apply jsstring_eqb_neq in Hfile.
  rewrite Henv, Hfile. reflexivity.
Qed.

(** An instance of C6: the export-to value stdout. *)
Lemma invalid_exportTo_fails_before_network_witness :
  let h := exampleHost "envshed_test_token_abc123" "stdout"
             (exampleResponse 200 (Some (examplePayload (Some exampleSecrets)))) in
  let cfg := exampleCfg "envshed_test_token_abc123" "stdout" in
  getInputs (inputs h) = Return cfg
  /\ exportTo cfg <> js "env"
  /\ exportTo cfg <> js "file"
  /\ trace (run h) = []
  /\ outcome (run h)
     = Throw (Error (js "Invalid export-to value: " ++ [QUOTE] ++ js "stdout"
                       ++ [QUOTE] ++ js ". Must be " ++ [QUOTE] ++ js "env"
                       ++ [QUOTE] ++ js " or " ++ [QUOTE] ++ js "file"
                       ++ [QUOTE] ++ js ".")).
Proof.
  intros h cfg.
  assert (Hin : getInputs (inputs h) = Return cfg) by (vm_compute; reflexivity).
  assert (Henv : exportTo cfg <> js "env") by (vm_compute; discriminate).
  assert (Hfile : exportTo cfg <> js "file") by (vm_compute; discriminate).
  refine (conj Hin (conj Henv (conj Hfile _))).
  rewrite (invalid_exportTo_fails_before_network h cfg Hin Henv Hfile).
  split; reflexivity.
Defined.

Lemma checkResponse_missing h cfg r :
  statusCode r = 200 ->
  result r = None \/ (exists body, result r = Some body /\ secrets body = None) ->
  checkResponse h cfg r = ([], Throw (Error missingSecrets)).
Proof.
  intros Hs H. unfold checkResponse. rewrite Hs.
  destruct H as [->|(body & -> & ->)]; reflexivity.
Qed.

Lemma checkResponse_status h cfg r :
  statusCode r <> 200 ->
  checkResponse h cfg r = ([], Throw (Error (fetchFailed (statusCode r)))).
Proof.
  intros Hs. unfold checkResponse.
  apply N.eqb_neq in Hs. now rewrite Hs.
Qed.

(** C5. A response with status 200 whose body is null, or whose body has no
    secrets field, makes the run throw the missing secrets field error right
    after the request; the status 200 does not save it. *)
Theorem missing_secrets_field_fails :
  forall h cfg url r,
    Fetched h cfg url r ->
    statusCode r = 200 ->
    result r = None \/ (exists body, result r = Some body /\ secrets body = None) ->
    run h
    = ([HttpGetJson url (bearer cfg) ACCEPT],
       Throw (Error
         (js "Unexpected response from Envshed API: missing secrets field."))).
Proof.
  intros h cfg url r Hf Hs Hbody.
  rewrite (run_fetched _ _ _ _ Hf), (checkResponse_missing _ _ _ Hs Hbody).
  reflexivity.
Qed.

(** An instance of C5: status 200 with a null body. *)
Lemma missing_secrets_field_fails_witness :
  let r := exampleResponse 200 None in
  let h := exampleHost "envshed_test_token_abc123" "env" r in
  let cfg := exampleCfg "envshed_test_token_abc123" "env" in
  Fetched h cfg exampleUrl r
  /\ statusCode r = 200
  /\ (result r = None
      \/ (exists body, result r = Some body /\ secrets body = None))
  /\ outcome (run h)
     = Throw (Error
         (js "Unexpected response from Envshed API: missing secrets field.")).
Proof.
  intros r h cfg.
  assert (F : Fetched h cfg exampleUrl r).
  { unfold Fetched. split; [vm_compute; reflexivity|].
    split; [left; reflexivity|].
    split; [vm_compute; reflexivity|reflexivity]. }
  refine (conj F (conj eq_refl (conj (or_introl eq_refl) _))).
  now rewrite (missing_secrets_field_fails h cfg exampleUrl r F eq_refl
                 (or_introl eq_refl)).
Defined.

(** C4, as stated, fails: the token is a string of the user's choosing, and
    a token that happens to be a piece of the fixed text occurs in the
    message. Here the token is the word token, and the response is a 404
    with no body. *)
Lemma fetch_error_may_contain_token :
  let h := exampleHost "token" "env" (exampleResponse 404 None) in
  exists cfg message,
    getInputs (inputs h) = Return cfg
    /\ outcome (run h) = Throw (Error message)
    /\ occurs_in (token cfg) message.
Proof.
  intros h. eexists _, _.
  split; [vm_compute; reflexivity|].
  split; [vm_compute; reflexivity|].
  exists (js "Failed to fetch secrets from Envshed (HTTP 404). Verify your "),
    (js ", org, project, and environment are correct.").
  vm_compute. reflexivity.
Qed.

(** C4, amended. A response whose status is not 200 makes the run throw,
    right after the request, the error whose message is the fixed text with
    the decimal status code in it. The message is made from the status code
    alone: any two runs that meet the same status throw the same error,
    whatever their tokens are, so the token is never put into it. *)
Theorem non200_fails_with_status_message :
  forall h cfg url r,
    Fetched h cfg url r ->
    statusCode r <> 200 ->
    run h
    = ([HttpGetJson url (bearer cfg) ACCEPT],
       Throw (Error
         (js "Failed to fetch secrets from Envshed (HTTP "
            ++ N_to_js (statusCode r)
            ++ js "). Verify your token, org, project, and environment are correct.")))
    /\ occurs_in (N_to_js (statusCode r)) (fetchFailed (statusCode r))
    /\ (forall h' cfg' url' r',
          Fetched h' cfg' url' r' ->
          statusCode r' = statusCode r ->
          outcome (run h') = outcome (run h)).
Proof.
  intros h cfg url r Hf Hs.
  assert (Hrun : forall h' cfg' url' r',
            Fetched h' cfg' url' r' -> statusCode r' = statusCode r ->
            run h' = ([HttpGetJson url' (bearer cfg') ACCEPT],
                      Throw (Error (fetchFailed (statusCode r))))).
  { intros h' cfg' url' r' Hf' Hs'.
    rewrite (run_fetched _ _ _ _ Hf'), checkResponse_status, Hs';
      [reflexivity|congruence]. }
  split; [|split].
  - rewrite (Hrun _ _ _ _ Hf eq_refl). reflexivity.
  - unfold fetchFailed. now eexists _, _.
  - intros h' cfg' url' r' Hf' Hs'.
    now rewrite (Hrun _ _ _ _ Hf' Hs'), (Hrun _ _ _ _ Hf eq_refl).
Qed.

(** An instance of C4: status 404 with a null body. *)
Lemma non200_fails_with_status_message_witness :
  let r := exampleResponse 404 None in
  let h := exampleHost "envshed_test_token_abc123" "env" r in
  let cfg := exampleCfg "envshed_test_token_abc123" "env" in
  Fetched h cfg exampleUrl r
  /\ statusCode r <> 200
  /\ outcome (run h)
     = Throw (Error
         (js "Failed to fetch secrets from Envshed (HTTP 404). Verify your token, org, project, and environment are correct.")).
Proof.
  intros r h cfg.
  assert (F : Fetched h cfg exampleUrl r).
  { unfold Fetched. split; [vm_compute; reflexivity|].
    split; [left; reflexivity|].
    split; [vm_compute; reflexivity|reflexivity]. }
  assert (Hs : statusCode r <> 200) by (vm_compute; discriminate).
  refine (conj F (conj Hs _)).
  destruct (non200_fails_with_status_message h cfg exampleUrl r F Hs)
    as (-> & _ & _).
  reflexivity.
Defined.

(** C7, as stated, fails: run has no return value and an empty secrets
    record ends it before the summary is made. With version 1 the run ends
    normally after the request and the warning, and the message that would
    carry the count 0 and the version 1 is never emitted. *)
Lemma empty_payload_makes_no_summary :
  let h := exampleHost "envshed_test_token_abc123" "env"
             (exampleResponse 200 (Some (examplePayload (Some [])))) in
  run h
  = ([HttpGetJson exampleUrl (js "Bearer envshed_test_token_abc123") ACCEPT;
      Warning (js "No secrets found for the specified environment.")],
     Return tt)
  /\ ~ In (Info (loaded 0 1)) (trace (run h))
  /\ loaded 0 1 = js "Loaded 0 secrets from Envshed (v1).".
Proof.
  intros h.
  assert (Hrun : run h
    = ([HttpGetJson exampleUrl (js "Bearer envshed_test_token_abc123") ACCEPT;
        Warning (js "No secrets found for the specified environment.")],
       Return tt)) by (vm_compute; reflexivity).
  split; [exact Hrun|]. split; [|vm_compute; reflexivity].
  rewrite Hrun. unfold trace. simpl.
  intros [H|[H|[]]]; discriminate.
Qed.

(** C7, amended. On a validated payload whose secrets record is empty the
    run makes the request, emits the decrypt warning if there is one, emits
    the warning that no secrets were found, and ends normally without a
    value. Nothing else happens: no mask, no export, no file write and no
    info message, so no count and version are reported. *)
Theorem empty_secrets_only_warns :
  forall h cfg url r body,
    Fetched h cfg url r ->
    statusCode r = 200 ->
    result r = Some body ->
    secrets body = Some [] ->
    run h
    = (HttpGetJson url (bearer cfg) ACCEPT
         :: decryptWarning body
         ++ [Warning (js "No secrets found for the specified environment.")],
       Return tt)
    /\ (forall e, In e (trace (run h)) ->
          match e with
          | HttpGetJson _ _ _ | Warning _ => True
          | _ => False
          end).
Proof.
  intros h cfg url r body Hf Hs Hr Hsec.
  assert (Hrun : run h
    = (HttpGetJson url (bearer cfg) ACCEPT
         :: decryptWarning body ++ [Warning noSecrets], Return tt)).
  { rewrite (run_fetched _ _ _ _ Hf).
    now rewrite (checkResponse_ok _ _ _ _ _ Hs Hr Hsec), deliverPayload_unfold. }
  split; [exact Hrun|].
  rewrite Hrun. unfold trace, fst. intros e [<-|H]; [exact I|].
  apply in_app_or in H. destruct H as [H|[<-|[]]]; [|exact I].
  apply in_decryptWarning in H. now destruct H as [m ->].
Qed.

(** An instance of C7, amended: an empty record with a decrypt error. *)
Lemma empty_secrets_only_warns_witness :
  let body := {| secrets := Some []; placeholders := []; version := 3;
                 linkedKeys := None; decryptErrors := Some [js "OLD_KEY"] |} in
  let r := exampleResponse 200 (Some body) in
  let h := exampleHost "envshed_test_token_abc123" "file" r in
  let cfg := exampleCfg "envshed_test_token_abc123" "file" in
  Fetched h cfg exampleUrl r
  /\ statusCode r = 200
  /\ result r = Some body
  /\ secrets body = Some []
  /\ run h
     = ([HttpGetJson exampleUrl (bearer cfg) ACCEPT;
         Warning (js "Some secrets could not be decrypted: OLD_KEY");
         Warning (js "No secrets found for the specified environment.")],
        Return tt).
Proof.
  intros body r h cfg.
  assert (F : Fetched h cfg exampleUrl r).
  { unfold Fetched. split; [vm_compute; reflexivity|].
    split; [right; reflexivity|].
    split; [vm_compute; reflexivity|reflexivity]. }
  refine (conj F (conj eq_refl (conj eq_refl (conj eq_refl _)))).
  destruct (empty_secrets_only_warns h cfg exampleUrl r body F
              eq_refl eq_refl eq_refl) as (-> & _).
  reflexivity.
Defined.

(** ** The URL, continued *)

(** C2, as stated, fails on two kinds of configuration. A token that is a
    piece of the URL text occurs in the URL: here the token is envshed and
    the host is app.envshed.com. And a slug with an unpaired surrogate has no
    percent-encoding: buildUrl throws URIError instead of returning. *)
Lemma buildUrl_may_contain_token :
  let cfg := exampleCfg "envshed" "env" in
  (exists url, buildUrl cfg = Return url /\ occurs_in (token cfg) url)
  /\ buildUrl (withOrg [0xD83D] cfg) = Throw URIError.
Proof.
  intros cfg. split; [|reflexivity].
  exists exampleUrl. split; [vm_compute; reflexivity|].
  exists (js "https://app."),
    (js ".com/api/v1/secrets/my-org/my-project/production").
  vm_compute. reflexivity.
Qed.

(** C2, amended. For every configuration whose three slugs are well-formed
    strings, buildUrl returns the API URL, the path /api/v1/secrets/ and the
    three slugs, each percent-encoded on its own by encodeURIComponent and
    separated by slashes. The space and the delimiters / & ? # = + : ; @ $ ,
    and the square brackets are each encoded as one %XX, and none of them is
    left in an encoded slug, which is made of unreserved characters and
    percent signs only. The URL is built without the token: it is the same
    for every token. *)
Theorem buildUrl_percent_encodes_slugs :
  forall cfg,
    isWellFormed (org cfg) = true ->
    isWellFormed (project cfg) = true ->
    isWellFormed (environment cfg) = true ->
    exists o p e,
      encodeURIComponent (org cfg) = Some o
      /\ encodeURIComponent (project cfg) = Some p
      /\ encodeURIComponent (environment cfg) = Some e
      /\ buildUrl cfg
         = Return (apiUrl cfg ++ js "/api/v1/secrets/" ++ o ++ [SLASH]
                     ++ p ++ [SLASH] ++ e)
      /\ (forall c, In c (js " /&?#=+:;@$,[]") ->
            encodeURIComponent [c] = Some (percentOctet c)
            /\ ~ In c o /\ ~ In c p /\ ~ In c e)
      /\ (forall c, In c (o ++ p ++ e) -> uriUnescaped c = true \/ c = PERCENT)
      /\ (forall t, buildUrl (withToken t cfg) = buildUrl cfg).
Proof.
  intros cfg Ho Hp He.
  destruct (encodeURIComponent_total _ Ho) as [o Eo].
  destruct (encodeURIComponent_total _ Hp) as [p Ep].
  destruct (encodeURIComponent_total _ He) as [e Ee].
  exists o, p, e. repeat split; try assumption.
  - unfold buildUrl, encodeSlug. now rewrite Eo, Ep, Ee.
  - change (js " /&?#=+:;@$,[]") with escapedDelimiters in H.
    unfold escapedDelimiters in H. simpl in H.
    repeat (destruct H as [<-|H]; [reflexivity|]). destruct H.
  - intros Hin. apply escapedDelimiters_not_safe in H.
    pose proof (encodeURIComponent_safe _ _ Eo) as Hs.
    rewrite Forall_forall in Hs. rewrite (Hs c) in H; [discriminate|].
    now apply list_elem_of_In.
  - intros Hin. apply escapedDelimiters_not_safe in H.
    pose proof (encodeURIComponent_safe _ _ Ep) as Hs.
    rewrite Forall_forall in Hs. rewrite (Hs c) in H; [discriminate|].
    now apply list_elem_of_In.
  - intros Hin. apply escapedDelimiters_not_safe in H.
    pose proof (encodeURIComponent_safe _ _ Ee) as Hs.
    rewrite Forall_forall in Hs. rewrite (Hs c) in H; [discriminate|].
    now apply list_elem_of_In.
  - intros c Hin.
    assert (Hs : uriSafe c = true).
    { pose proof (encodeURIComponent_safe _ _ Eo) as Hso.
      pose proof (encodeURIComponent_safe _ _ Ep) as Hsp.
      pose proof (encodeURIComponent_safe _ _ Ee) as Hse.
      rewrite Forall_forall in Hso, Hsp, Hse.
      apply in_app_or in Hin. destruct Hin as [Hin|Hin];
        [apply Hso; now apply list_elem_of_In|].
      apply in_app_or in Hin. destruct Hin as [Hin|Hin];
        [apply Hsp|apply Hse]; now apply list_elem_of_In. }
    unfold uriSafe in Hs. apply orb_true_iff in Hs.
    destruct Hs as [Hs|Hs]; [now left|right]. now apply N.eqb_eq.
Qed.

(** An instance of C2, amended: the slugs of the repository's test. *)
Lemma buildUrl_percent_encodes_slugs_witness :
  let cfg := {| token := js "t";
                org := js "org with spaces";
                project := js "project/slash";
                environment := js "env&special";
                apiUrl := js "https://app.envshed.com";
                exportTo := js "env";
                filePath := js ".env" |} in
  isWellFormed (org cfg) = true
  /\ isWellFormed (project cfg) = true
  /\ isWellFormed (environment cfg) = true
  /\ buildUrl cfg
     = Return (js "https://app.envshed.com/api/v1/secrets/org%20with%20spaces/project%2Fslash/env%26special").
Proof.
  intros cfg.
  refine (conj eq_refl (conj eq_refl (conj eq_refl _))).
  destruct (buildUrl_percent_encodes_slugs cfg eq_refl eq_refl eq_refl)
    as (o & p & e & Eo & Ep & Ee & -> & _).
  vm_compute in Eo, Ep, Ee.
  injection Eo as <-. injection Ep as <-. injection Ee as <-.
  vm_compute. reflexivity.
Defined.

(** ** The inputs *)

Lemma getInput_required src name :
  getInput src name true
  = if is_empty (inputValue src name)
    then Throw (Error (js "Input required and not supplied: " ++ js name))
    else Return (trim (inputValue src name)).
Proof. reflexivity. Qed.

Lemma getInput_optional src name :
  getInput src name false = Return (trim (inputValue src name)).
Proof. reflexivity. Qed.

Lemma is_empty_true s : is_empty s = true <-> s = [].
Proof. destruct s; split; intros H; try reflexivity; discriminate. Qed.

Lemma is_empty_false s : is_empty s = false <-> s <> [].
Proof. destruct s; split; intros H; try reflexivity; try discriminate; now destruct H. Qed.

Lemma takesDefault_orElse src name dflt :
  takesDefault src name dflt (orElse (trim (inputValue src name)) dflt).
Proof.
  unfold takesDefault, orElse. split; [|split]; intros H.
  - now rewrite H.
  - now rewrite H.
  - apply is_empty_false in H. now rewrite H.
Qed.

(** What getInputs answers, by the first required input that is missing. *)
Lemma getInputs_unfold src :
  getInputs src
  = if is_empty (inputValue src "token")
    then Throw (Error (js "Input required and not supplied: " ++ js "token"))
    else if is_empty (inputValue src "org")
    then Throw (Error (js "Input required and not supplied: " ++ js "org"))
    else if is_empty (inputValue src "project")
    then Throw (Error (js "Input required and not supplied: " ++ js "project"))
    else Return
      {| token := trim (inputValue src "token");
         org := trim (inputValue src "org");
         project := trim (inputValue src "project");
         environment :=
           orElse (trim (inputValue src "environment")) (js "production");
         apiUrl :=
           orElse (trim (inputValue src "api-url")) (js "https://app.envshed.com");
         exportTo := orElse (trim (inputValue src "export-to")) (js "env");
         filePath := orElse (trim (inputValue src "file-path")) (js ".env") |}.
Proof.
  unfold getInputs. rewrite !getInput_required, !getInput_optional.
  destruct (is_empty (inputValue src "token")); [reflexivity|].
  destruct (is_empty (inputValue src "org")); [reflexivity|].
  destruct (is_empty (inputValue src "project")); reflexivity.
Qed.

(** C8, as stated, fails on the text of the message: with no token the error
    reads Input required and not supplied: token. *)
Lemma getInputs_missing_token_message :
  getInputs ∅ = Throw (Error (js "Input required and not supplied: token"))
  /\ getInputs ∅ <> Throw (Error (js "required input missing: token")).
Proof.
  assert (H : getInputs ∅
              = Throw (Error (js "Input required and not supplied: token")))
    by (vm_compute; reflexivity).
  split; [exact H|]. rewrite H. vm_compute. discriminate.
Qed.

(** C8, amended. When one of the required inputs token, org, project is
    absent or empty, getInputs throws the error Input required and not
    supplied: name, where name is the first of token, org, project that is
    missing. When the three are there, it returns a configuration in which
    each of environment, apiUrl, exportTo and filePath is its default
    (production, https://app.envshed.com, env, .env) when the input is
    unset, that is absent or empty. The reader trims the values: the
    configuration holds the three required inputs trimmed, an optional input
    of white space only takes its default too, and any other optional input
    is held trimmed. *)
Theorem getInputs_required_and_defaults :
  forall src,
    (inputValue src "token" = [] \/ inputValue src "org" = []
       \/ inputValue src "project" = [] ->
     exists name,
       In name ["token"; "org"; "project"]%string
       /\ inputValue src name = []
       /\ getInputs src
          = Throw (Error (js "Input required and not supplied: " ++ js name)))
    /\ (inputValue src "token" = [] ->
        getInputs src
        = Throw (Error (js "Input required and not supplied: token")))
    /\ (inputValue src "token" <> [] -> inputValue src "org" = [] ->
        getInputs src
        = Throw (Error (js "Input required and not supplied: org")))
    /\ (inputValue src "token" <> [] -> inputValue src "org" <> [] ->
        inputValue src "project" = [] ->
        getInputs src
        = Throw (Error (js "Input required and not supplied: project")))
    /\ (inputValue src "token" <> [] ->
        inputValue src "org" <> [] ->
        inputValue src "project" <> [] ->
        exists cfg,
          getInputs src = Return cfg
          /\ token cfg = trim (inputValue src "token")
          /\ org cfg = trim (inputValue src "org")
          /\ project cfg = trim (inputValue src "project")
          /\ takesDefault src "environment" (js "production") (environment cfg)
          /\ takesDefault src "api-url" (js "https://app.envshed.com") (apiUrl cfg)
          /\ takesDefault src "export-to" (js "env") (exportTo cfg)
          /\ takesDefault src "file-path" (js ".env") (filePath cfg)).
Proof.
  intros src. rewrite getInputs_unfold.
  split; [|split; [|split; [|split]]].
  - intros Hmiss.
    destruct (is_empty (inputValue src "token")) eqn:Ht.
    { exists "token"%string. apply is_empty_true in Ht. simpl. tauto. }
    destruct (is_empty (inputValue src "org")) eqn:Ho.
    { exists "org"%string. apply is_empty_true in Ho. simpl. tauto. }
    destruct (is_empty (inputValue src "project")) eqn:Hp.
    { exists "project"%string. apply is_empty_true in Hp. simpl. tauto. }
    apply is_empty_false in Ht, Ho, Hp. tauto.
  - intros Ht. now rewrite Ht.
  - intros Ht Ho. apply is_empty_false in Ht. now rewrite Ht, Ho.
  - intros Ht Ho Hp. apply is_empty_false in Ht, Ho. now rewrite Ht, Ho, Hp.
  - intros Ht Ho Hp.
    apply is_empty_false in Ht, Ho, Hp. rewrite Ht, Ho, Hp.
    eexists. split; [reflexivity|].
    cbn [token org project environment apiUrl exportTo filePath].
    repeat (split; [first [reflexivity|apply takesDefault_orElse]|]).
    apply takesDefault_orElse.
Qed.

(** Three instances of C8, amended: the inputs without an org; the inputs of
    a step that sets only the required ones, with an empty api-url; and
    inputs with white space around the org and an environment of white
    space only. *)
Lemma getInputs_required_and_defaults_witness :
  let without := delete "org"%string
                   (exampleInputs "envshed_test_token_abc123" "env") in
  let required : gmap string jsstring :=
    {[ "token"%string := js "envshed_test_token_abc123";
       "org"%string := js "my-org";
       "project"%string := js "my-project";
       "api-url"%string := [] ]} in
  let padded : gmap string jsstring :=
    {[ "token"%string := js "t";
       "org"%string := js " my-org ";
       "project"%string := js "p";
       "environment"%string := js " " ]} in
  (inputValue without "org" = []
   /\ exists name,
        inputValue without name = []
        /\ getInputs without
           = Throw (Error (js "Input required and not supplied: " ++ js name)))
  /\ (inputValue required "token" <> []
      /\ inputValue required "org" <> []
      /\ inputValue required "project" <> []
      /\ exists cfg,
           getInputs required = Return cfg
           /\ apiUrl cfg = js "https://app.envshed.com"
           /\ exportTo cfg = js "env")
  /\ (exists cfg,
        getInputs padded = Return cfg
        /\ org cfg = js "my-org"
        /\ environment cfg = js "production").
Proof.
  intros without required padded. split; [|split].
  - split; [reflexivity|].
    destruct (proj1 (getInputs_required_and_defaults without)
                (or_intror (or_introl eq_refl))) as (name & _ & Hn & Hthrow).
    exists name. now split.
  - assert (Ht : inputValue required "token" <> []) by (vm_compute; discriminate).
    assert (Ho : inputValue required "org" <> []) by (vm_compute; discriminate).
    assert (Hp : inputValue required "project" <> []) by (vm_compute; discriminate).
    refine (conj Ht (conj Ho (conj Hp _))).
    destruct (proj2 (proj2 (proj2 (proj2
                (getInputs_required_and_defaults required)))) Ht Ho Hp)
      as (cfg & Hcfg & _ & _ & _ & _ & (Ha & _) & (He & _) & _).
    exists cfg. split; [exact Hcfg|]. split; [now apply Ha|now apply He].
  - assert (Ht : inputValue padded "token" <> []) by (vm_compute; discriminate).
    assert (Ho : inputValue padded "org" <> []) by (vm_compute; discriminate).
    assert (Hp : inputValue padded "project" <> []) by (vm_compute; discriminate).
    destruct (proj2 (proj2 (proj2 (proj2
                (getInputs_required_and_defaults padded)))) Ht Ho Hp)
      as (cfg & Hcfg & _ & Horg & _ & (_ & He & _) & _).
    exists cfg. split; [exact Hcfg|]. split; [now rewrite Horg|now apply He].
Defined.

(** ** The errors of the run *)

Lemma outcome_bind {A B} (m : Action A) (k : A -> Action B) :
  outcome (bind m k)
  = match outcome m with
    | Return a => outcome (k a)
    | Throw e => Throw e
    end.
Proof.
  destruct m as [tr [a|e]]; unfold bind, outcome; simpl; [|reflexivity].
  now destruct (k a).
Qed.

Lemma buildUrl_throws cfg e : buildUrl cfg = Throw e -> e = URIError.
Proof.
  unfold buildUrl, encodeSlug, andThen.
  destruct (encodeURIComponent (org cfg)); [|now intros [= <-]].
  destruct (encodeURIComponent (project cfg)); [|now intros [= <-]].
  destruct (encodeURIComponent (environment cfg)); [|now intros [= <-]].
  discriminate.
Qed.

Lemma deliverPayload_outcome h cfg body secrets_ :
  outcome (deliverPayload h cfg body secrets_) = Return tt
  \/ exists what, outcome (deliverPayload h cfg body secrets_) = Throw (Foreign what).
Proof.
  rewrite deliverPayload_unfold. destruct secrets_ as [|entry rest]; [now left|].
  destruct (jsstring_eqb (exportTo cfg) (js "env")); [now left|].
  cbv zeta.
  destruct (writeFileSync h (resolve h (filePath cfg)) (formatEnvFile (entry :: rest)))
    as [[]|what]; [now left|right; now exists what].
Qed.

Lemma checkResponse_outcome h cfg r message :
  outcome (checkResponse h cfg r) = Throw (Error message) ->
  message = fetchFailed (statusCode r) \/ message = missingSecrets.
Proof.
  unfold checkResponse.
  destruct (negb (N.eqb (statusCode r) 200)); [intros [= <-]; now left|].
  destruct (result r) as [body|]; [|intros [= <-]; now right].
  destruct (secrets body) as [secrets_|]; [|intros [= <-]; now right].
  intros H.
  destruct (deliverPayload_outcome h cfg body secrets_) as [E|[what E]];
    rewrite E in H; discriminate.
Qed.

Lemma bind_lift_return {A B} (a : A) (k : A -> Action B) :
  bind (lift (Return a)) k = k a.
Proof. unfold bind, lift. now destruct (k a). Qed.

(** The invalid export-to error is thrown only by the check of lines 58-62:
    the converse of C6. *)
Lemma run_invalid_exportTo_only_if h value :
  outcome (run h) = Throw (Error (invalidExportTo value)) ->
  exists cfg,
    getInputs (inputs h) = Return cfg
    /\ exportTo cfg <> js "env" /\ exportTo cfg <> js "file".
Proof.
  unfold run.
  destruct (getInputs (inputs h)) as [cfg|e] eqn:Hin.
  - rewrite bind_lift_return.
    destruct (jsstring_eqb (exportTo cfg) (js "env")) eqn:Henv;
      [|destruct (jsstring_eqb (exportTo cfg) (js "file")) eqn:Hfile].
    3:{ intros _. exists cfg. apply jsstring_eqb_neq in Henv, Hfile. tauto. }
    all: cbn [negb andb]; rewrite outcome_bind; unfold fetch;
      destruct (buildUrl cfg) as [url|e] eqn:Hurl;
      [|apply buildUrl_throws in Hurl; subst e; discriminate];
      rewrite bind_lift_return, bind_emit; unfold outcome at 2; simpl snd;
      destruct (getJson h url (bearer cfg)) as [r|what];
      [|discriminate];
      unfold external, ret, outcome at 2; simpl snd;
      intros H; apply checkResponse_outcome in H;
      destruct H as [H|H]; vm_compute in H; discriminate.
  - unfold lift, bind, outcome, snd.
    rewrite getInputs_unfold in Hin.
    destruct (is_empty (inputValue (inputs h) "token"));
      [injection Hin as <-; intros H; vm_compute in H; discriminate|].
    destruct (is_empty (inputValue (inputs h) "org"));
      [injection Hin as <-; intros H; vm_compute in H; discriminate|].
    destruct (is_empty (inputValue (inputs h) "project"));
      [injection Hin as <-; intros H; vm_compute in H; discriminate|].
    discriminate.
Qed.

Lemma present_but_empty (src : gmap string jsstring) name :
  src !! name = Some [] -> inputValue src name = [].
Proof. unfold inputValue. now intros ->. Qed.

(** C10. When an optional input (environment, api-url, export-to,
    file-path) is present and is the empty string, getInputs puts the
    documented default into the configuration; and a run whose export-to
    input is present and empty never throws the invalid export-to error,
    whatever value that error would quote. *)
Theorem empty_optional_inputs_take_defaults :
  forall h,
    (forall cfg,
       getInputs (inputs h) = Return cfg ->
       (inputs h !! "environment"%string = Some [] ->
          environment cfg = js "production")
       /\ (inputs h !! "api-url"%string = Some [] ->
          apiUrl cfg = js "https://app.envshed.com")
       /\ (inputs h !! "export-to"%string = Some [] -> exportTo cfg = js "env")
       /\ (inputs h !! "file-path"%string = Some [] -> filePath cfg = js ".env"))
    /\ (inputs h !! "export-to"%string = Some [] ->
        forall value,
          outcome (run h) <> Throw (Error (invalidExportTo value))).
Proof.
  intros h.
  assert (Hcfg : forall cfg,
    getInputs (inputs h) = Return cfg ->
    (inputs h !! "environment"%string = Some [] ->
       environment cfg = js "production")
    /\ (inputs h !! "api-url"%string = Some [] ->
       apiUrl cfg = js "https://app.envshed.com")
    /\ (inputs h !! "export-to"%string = Some [] -> exportTo cfg = js "env")
    /\ (inputs h !! "file-path"%string = Some [] -> filePath cfg = js ".env")).
  { intros cfg Hin. rewrite getInputs_unfold in Hin.
    destruct (is_empty (inputValue (inputs h) "token")); [discriminate|].
    destruct (is_empty (inputValue (inputs h) "org")); [discriminate|].
    destruct (is_empty (inputValue (inputs h) "project")); [discriminate|].
    injection Hin as <-. simpl.
    repeat split; intros H; apply present_but_empty in H; now rewrite H. }
  split; [exact Hcfg|].
  intros Hempty value Hrun.
  destruct (run_invalid_exportTo_only_if h value Hrun) as (cfg & Hin & Henv & _).
  apply Henv. now apply (Hcfg cfg Hin).
Qed.

(** An instance of C10: a step that passes an empty export-to and an empty
    file-path. *)
Lemma empty_optional_inputs_take_defaults_witness :
  let h := exampleHost "envshed_test_token_abc123" ""
             (exampleResponse 200 (Some (examplePayload (Some exampleSecrets)))) in
  inputs h !! "export-to"%string = Some []
  /\ (exists cfg, getInputs (inputs h) = Return cfg /\ exportTo cfg = js "env")
  /\ outcome (run h) <> Throw (Error (invalidExportTo []))
  /\ outcome (run h) = Return tt.
Proof.
  intros h.
  assert (He : inputs h !! "export-to"%string = Some [])
    by (vm_compute; reflexivity).
  split; [exact He|].
  destruct (empty_optional_inputs_take_defaults h) as [Hcfg Hrun].
  split; [|split].
  - eexists. split; [vm_compute; reflexivity|].
    refine (proj1 (proj2 (proj2 (Hcfg _ _))) He). vm_compute. reflexivity.
  - exact (Hrun He []).
  - vm_compute. reflexivity.
Defined.

(** * Further properties *)

(** ** The env-file format, continued *)

Lemma escapeUnit_cases c :
  (c = BACKSLASH /\ escapeUnit c = [BACKSLASH; BACKSLASH])
  \/ (c = QUOTE /\ escapeUnit c = [BACKSLASH; QUOTE])
  \/ (c = LF /\ escapeUnit c = [BACKSLASH; LOWER_N])
  \/ (c = CR /\ escapeUnit c = [BACKSLASH; LOWER_R])
  \/ (isSpecial c = false /\ escapeUnit c = [c]).
Proof.
  unfold escapeUnit, isSpecial.
  destruct (N.eqb_spec c BACKSLASH) as [->|Hb]; [tauto|].
  destruct (N.eqb_spec c QUOTE) as [->|Hq]; [tauto|].
  destruct (N.eqb_spec c LF) as [->|Hl]; [tauto|].
  destruct (N.eqb_spec c CR) as [->|Hc]; [tauto|].
  repeat right. now split.
Qed.

Lemma isSpecial_false c :
  isSpecial c = false ->
  c <> BACKSLASH /\ c <> QUOTE /\ c <> LF /\ c <> CR.
Proof.
  unfold isSpecial. rewrite !orb_false_iff, !N.eqb_neq. tauto.
Qed.

Lemma escapeValue_app a b : escapeValue (a ++ b) = escapeValue a ++ escapeValue b.
Proof. rewrite !escapeValue_units. apply flat_map_app. Qed.

Lemma escapeValue_cons c v : escapeValue (c :: v) = escapeUnit c ++ escapeValue v.
Proof. now rewrite !escapeValue_units. Qed.

Lemma escapeUnit_line_break_free c :
  ~ In LF (escapeUnit c) /\ ~ In CR (escapeUnit c).
Proof.
  destruct (escapeUnit_cases c)
    as [[_ E]|[[_ E]|[[_ E]|[[_ E]|[Hs E]]]]]; rewrite E;
    split; intros H; simpl in H;
    try (destruct H as [H|[H|[]]]; discriminate);
    destruct H as [H|[]]; apply isSpecial_false in Hs; tauto.
Qed.

(** X1. An escaped value holds no newline and no carriage return, whatever
    the value was: a value cannot end its line of the file. *)
Theorem escapeValue_has_no_line_break :
  forall value, ~ In LF (escapeValue value) /\ ~ In CR (escapeValue value).
Proof.
  intros value. rewrite escapeValue_units.
  split; intros H; apply in_flat_map in H; destruct H as (c & _ & H);
    destruct (escapeUnit_line_break_free c); contradiction.
Qed.

Lemma length_escapeUnit c :
  length (escapeUnit c) = (if isSpecial c then 2 else 1)%nat.
Proof.
  destruct (escapeUnit_cases c)
    as [[-> E]|[[-> E]|[[-> E]|[[-> E]|[Hs E]]]]]; rewrite E; try reflexivity.
  now rewrite Hs.
Qed.

Lemma length_escapeValue value :
  length (escapeValue value)
  = (length value + length (List.filter isSpecial value))%nat.
Proof.
  induction value as [|c value IH]; [reflexivity|].
  rewrite escapeValue_cons, length_app, IH, length_escapeUnit. simpl.
  destruct (isSpecial c); simpl; lia.
Qed.

(** X2. The escaping adds one code unit for each backslash, double quote,
    newline and carriage return of the value, and it leaves a value as it is
    exactly when the value has none of the four. *)
Theorem escapeValue_identity_iff :
  forall value,
    length (escapeValue value)
    = (length value + length (List.filter isSpecial value))%nat
    /\ (escapeValue value = value <-> List.forallb (fun c => negb (isSpecial c)) value = true).
Proof.
  intros value. split; [apply length_escapeValue|]. split.
  - intros H. pose proof (length_escapeValue value) as Hl. rewrite H in Hl.
    assert (Hz : length (List.filter isSpecial value) = 0%nat) by lia.
    clear H Hl. induction value as [|c value IH]; [reflexivity|].
    simpl in *. destruct (isSpecial c); [discriminate|]. now apply IH.
  - intros H. induction value as [|c value IH]; [reflexivity|].
    simpl in H. apply andb_true_iff in H. destruct H as [Hc Hv].
    rewrite escapeValue_cons, (IH Hv).
    destruct (escapeUnit_cases c)
      as [[-> E]|[[-> E]|[[-> E]|[[-> E]|[Hs E]]]]];
      try discriminate. now rewrite E.
Qed.

Lemma countUnit_app c a b :
  countUnit c (a ++ b) = (countUnit c a + countUnit c b)%nat.
Proof. unfold countUnit. now rewrite List.filter_app, length_app. Qed.

Lemma countUnit_absent c s : ~ In c s -> countUnit c s = 0%nat.
Proof.
  unfold countUnit. induction s as [|x s IH]; [reflexivity|].
  intros H. simpl. destruct (N.eqb_spec c x) as [->|Hne].
  - destruct H. now left.
  - apply IH. intros Hin. apply H. now right.
Qed.

Lemma countUnit_LF_formatEntry key value :
  ~ In LF key -> countUnit LF (formatEntry (key, value) ++ [LF]) = 1%nat.
Proof.
  intros Hk. unfold formatEntry.
  rewrite !countUnit_app, (countUnit_absent LF key Hk).
  rewrite (countUnit_absent LF (escapeValue value)).
  2:{ rewrite escapeValue_units. intros H. apply in_flat_map in H.
      destruct H as (c & _ & H).
      destruct (escapeUnit_line_break_free c); contradiction. }
  reflexivity.
Qed.

(** X3. When no key holds a newline, the file has exactly one newline per
    entry, each at the end of its line; the file of the empty record is the
    single newline. *)
Theorem formatEnvFile_one_line_per_entry :
  forall secrets_,
    Forall (fun key => ~ In LF key) (keysOf secrets_) ->
    countUnit LF (formatEnvFile secrets_) = Nat.max 1 (length secrets_).
Proof.
  intros secrets_ Hkeys. destruct secrets_ as [|entry rest]; [reflexivity|].
  rewrite formatEnvFile_lines.
  assert (H : forall r, Forall (fun key => ~ In LF key) (keysOf r) ->
            countUnit LF (flat_map (fun e => formatEntry e ++ [LF]) r) = length r).
  { induction r as [|[key value] r IH]; intros Hr; [reflexivity|].
    cbn [flat_map]. apply Forall_cons_iff in Hr. destruct Hr as [Hk Hr].
    rewrite countUnit_app, countUnit_LF_formatEntry by exact Hk.
    rewrite (IH Hr). reflexivity. }
  rewrite (H _ Hkeys). simpl. lia.
Qed.

(** An instance of X3: three entries, one of them with a value of two
    lines. *)
Lemma formatEnvFile_one_line_per_entry_witness :
  let r := [(js "A", js "x" ++ [LF] ++ js "y"); (js "B", []); (js "C", [CR; LF])] in
  Forall (fun key => ~ In LF key) (keysOf r)
  /\ countUnit LF (formatEnvFile r) = 3%nat.
Proof.
  intros r.
  assert (H : Forall (fun key => ~ In LF key) (keysOf r)).
  { repeat constructor; vm_compute; intros Hin;
      repeat (destruct Hin as [Hin|Hin]; [discriminate|]); exact Hin. }
  split; [exact H|].
  exact (formatEnvFile_one_line_per_entry r H).
Defined.

(** X4. The file of two records put one after the other is the two files put
    one after the other, as long as neither record is empty. *)
Theorem formatEnvFile_app :
  forall a b,
    a <> [] -> b <> [] ->
    formatEnvFile (a ++ b) = formatEnvFile a ++ formatEnvFile b.
Proof.
  intros [|ea a] [|eb b] Ha Hb; try contradiction.
  change ((ea :: a) ++ eb :: b) with (ea :: (a ++ eb :: b)).
  rewrite !formatEnvFile_lines.
  change (ea :: a ++ eb :: b) with ((ea :: a) ++ eb :: b).
  apply flat_map_app.
Qed.

(** An instance of X4; with an empty record the equation fails, because the
    file of the empty record is a newline. *)
Lemma formatEnvFile_app_witness :
  let a := [(js "A", js "1")] in
  let b := [(js "B", js "2")] in
  a <> [] /\ b <> []
  /\ formatEnvFile (a ++ b) = formatEnvFile a ++ formatEnvFile b
  /\ formatEnvFile (a ++ []) <> formatEnvFile a ++ formatEnvFile [].
Proof.
  intros a b.
  assert (Ha : a <> []) by discriminate.
  assert (Hb : b <> []) by discriminate.
  refine (conj Ha (conj Hb (conj (formatEnvFile_app a b Ha Hb) _))).
  vm_compute. discriminate.
Defined.

(** A double quote never opens the escaping of a code unit. *)
Lemma escapeUnit_head c : exists a rest, escapeUnit c = a :: rest /\ a <> QUOTE.
Proof.
  destruct (escapeUnit_cases c)
    as [[-> E]|[[-> E]|[[-> E]|[[-> E]|[Hs E]]]]]; rewrite E.
  1-4: eexists _, _; split; [reflexivity|discriminate].
  eexists _, _. split; [reflexivity|]. apply isSpecial_false in Hs. tauto.
Qed.

(** The escapings of single code units form a prefix code. *)
Lemma escapeUnit_prefix c1 c2 x y :
  escapeUnit c1 ++ x = escapeUnit c2 ++ y -> c1 = c2 /\ x = y.
Proof.
  destruct (escapeUnit_cases c1)
    as [[-> E1]|[[-> E1]|[[-> E1]|[[-> E1]|[H1 E1]]]]]; rewrite E1;
  destruct (escapeUnit_cases c2)
    as [[-> E2]|[[-> E2]|[[-> E2]|[[-> E2]|[H2 E2]]]]]; rewrite E2;
  simpl; intros H; try discriminate;
  try (injection H as <-; now split);
  try (apply isSpecial_false in H1); try (apply isSpecial_false in H2);
  try (injection H as -> _; tauto);
  try (injection H as <- _; tauto).
Qed.

Lemma escaped_until_quote v1 v2 t1 t2 :
  escapeValue v1 ++ QUOTE :: t1 = escapeValue v2 ++ QUOTE :: t2 ->
  v1 = v2 /\ t1 = t2.
Proof.
  revert v2. induction v1 as [|c1 v1 IH]; intros [|c2 v2].
  - intros [= <-]. now split.
  - rewrite escapeValue_cons. destruct (escapeUnit_head c2) as (a & r & -> & Ha).
    intros [= <- _]. now destruct Ha.
  - rewrite escapeValue_cons. destruct (escapeUnit_head c1) as (a & r & -> & Ha).
    intros [= -> _]. now destruct Ha.
  - rewrite !escapeValue_cons, <- !List.app_assoc. intros H.
    apply escapeUnit_prefix in H. destruct H as [-> H].
    apply IH in H. destruct H as [-> ->]. now split.
Qed.

Lemma key_until_equals k1 k2 x y :
  ~ In EQUALS k1 -> ~ In EQUALS k2 ->
  k1 ++ EQUALS :: x = k2 ++ EQUALS :: y -> k1 = k2 /\ x = y.
Proof.
  revert k2. induction k1 as [|a k1 IH]; intros [|b k2] H1 H2 H; simpl in H.
  - injection H as <-. now split.
  - injection H as <- _. destruct H2. now left.
  - injection H as -> _. destruct H1. now left.
  - injection H as -> H.
    destruct (IH k2) as [-> ->]; try assumption; [| |now split];
      intros Hin; [apply H1|apply H2]; now right.
Qed.

Lemma lines_inj r1 r2 :
  Forall (fun key => ~ In EQUALS key) (keysOf r1) ->
  Forall (fun key => ~ In EQUALS key) (keysOf r2) ->
  flat_map (fun e => formatEntry e ++ [LF]) r1
  = flat_map (fun e => formatEntry e ++ [LF]) r2 ->
  r1 = r2.
Proof.
  revert r2. induction r1 as [|[k1 v1] r1 IH]; intros [|[k2 v2] r2] H1 H2 H.
  - reflexivity.
  - cbn [flat_map] in H. unfold formatEntry in H.
    destruct k2; discriminate.
  - cbn [flat_map] in H. unfold formatEntry in H.
    destruct k1; discriminate.
  - cbn [flat_map] in H. unfold formatEntry in H.
    apply Forall_cons_iff in H1. destruct H1 as [Hk1 H1].
    apply Forall_cons_iff in H2. destruct H2 as [Hk2 H2].
    rewrite <- !List.app_assoc in H. simpl in H.
    apply key_until_equals in H; [|assumption..]. destruct H as [-> H].
    injection H as H. apply escaped_until_quote in H. destruct H as [-> H].
    injection H as H. now rewrite (IH r2 H1 H2 H).
Qed.

(** X5. A file determines its record: two records whose keys hold no equals
    sign and that are written as the same file are the same record, entry by
    entry, keys, values and order. *)
Theorem formatEnvFile_injective :
  forall r1 r2,
    Forall (fun key => ~ In EQUALS key) (keysOf r1) ->
    Forall (fun key => ~ In EQUALS key) (keysOf r2) ->
    formatEnvFile r1 = formatEnvFile r2 ->
    r1 = r2.
Proof.
  intros r1 r2 H1 H2 H.
  assert (Hne : forall e r, formatEnvFile (e :: r) <> [LF]).
  { intros [k v] r E. rewrite formatEnvFile_lines in E.
    cbn [flat_map] in E. unfold formatEntry in E.
    assert (Hin : In EQUALS [LF]).
    { rewrite <- E. rewrite !in_app_iff. simpl. tauto. }
    destruct Hin as [Hin|[]]. discriminate. }
  destruct r1 as [|e1 r1], r2 as [|e2 r2].
  - reflexivity.
  - symmetry in H. now apply Hne in H.
  - now apply Hne in H.
  - rewrite !formatEnvFile_lines in H. now apply lines_inj.
Qed.

(** An instance of X5, and what the condition on the keys is for: a key
    that holds an equals sign, a quote and a newline can imitate two
    entries. *)
Lemma formatEnvFile_injective_witness :
  let r1 := [(js "A", js "x"); (js "B", js "y")] in
  let forged := [(js "A=" ++ [QUOTE] ++ js "x" ++ [QUOTE; LF] ++ js "B", js "y")] in
  Forall (fun key => ~ In EQUALS key) (keysOf r1)
  /\ (forall r2,
        Forall (fun key => ~ In EQUALS key) (keysOf r2) ->
        formatEnvFile r1 = formatEnvFile r2 -> r1 = r2)
  /\ formatEnvFile forged = formatEnvFile r1
  /\ forged <> r1.
Proof.
  intros r1 forged.
  assert (H1 : Forall (fun key => ~ In EQUALS key) (keysOf r1)).
  { repeat constructor; vm_compute; intros Hin;
      repeat (destruct Hin as [Hin|Hin]; [discriminate|]); exact Hin. }
  split; [exact H1|]. split; [|split].
  - intros r2 H2 H. exact (formatEnvFile_injective r1 r2 H1 H2 H).
  - vm_compute. reflexivity.
  - discriminate.
Defined.

(** ** encodeURIComponent, continued *)

(** One step of the encoder. *)
Lemma encodeURIComponent_cons c rest :
  encodeURIComponent (c :: rest)
  = if uriUnescaped c then cons c <$> encodeURIComponent rest
    else if isLeadingSurrogate c then
      match rest with
      | d :: rest' =>
          if isTrailingSurrogate d
          then app (escapeCodePoint (surrogatePair c d))
                 <$> encodeURIComponent rest'
          else None
      | [] => None
      end
    else if isTrailingSurrogate c then None
    else app (escapeCodePoint c) <$> encodeURIComponent rest.
Proof. now destruct rest. Qed.

Lemma isWellFormed_cons c rest :
  isWellFormed (c :: rest)
  = if isLeadingSurrogate c then
      match rest with
      | d :: rest' => isTrailingSurrogate d && isWellFormed rest'
      | [] => false
      end
    else if isTrailingSurrogate c then false
    else isWellFormed rest.
Proof. now destruct rest. Qed.

(** Induction over a string two code units at a time. *)
Lemma jsstring_pair_ind (P : jsstring -> Prop) :
  P [] ->
  (forall c, P [c]) ->
  (forall c d rest, P rest -> P (d :: rest) -> P (c :: d :: rest)) ->
  forall s, P s.
Proof.
  intros H0 H1 H2 s.
  assert (H : P s /\ forall c, P (c :: s)).
  { induction s as [|d s [IHs IHd]]; [now split|].
    split; [apply IHd|]. intros c. apply H2; [exact IHs|apply IHd]. }
  apply H.
Qed.

Lemma encodeURIComponent_Some_wellFormed s e :
  encodeURIComponent s = Some e -> isWellFormed s = true.
Proof.
  revert e. induction s as [|c|c d rest IH0 IH1] using jsstring_pair_ind;
    intros e; [reflexivity| |].
  - rewrite encodeURIComponent_cons, isWellFormed_cons.
    destruct (isLeadingSurrogate c) eqn:Hl.
    + rewrite (surrogate_not_unescaped c) by (now rewrite Hl). discriminate.
    + destruct (isTrailingSurrogate c) eqn:Ht; [|reflexivity].
      rewrite (surrogate_not_unescaped c) by (rewrite Ht; apply orb_true_r).
      discriminate.
  - rewrite encodeURIComponent_cons, isWellFormed_cons.
    destruct (isLeadingSurrogate c) eqn:Hl.
    + rewrite (surrogate_not_unescaped c) by (now rewrite Hl).
      destruct (isTrailingSurrogate d); [|discriminate].
      destruct (encodeURIComponent rest) as [e'|] eqn:E; [|discriminate].
      intros _. now apply (IH0 e').
    + destruct (isTrailingSurrogate c) eqn:Ht.
      * rewrite (surrogate_not_unescaped c) by (rewrite Ht; apply orb_true_r).
        discriminate.
      * destruct (encodeURIComponent (d :: rest)) as [e'|] eqn:E;
          [intros _; now apply (IH1 e')|].
        destruct (uriUnescaped c); discriminate.
Qed.

(** X6. encodeURIComponent fails, with the URIError, exactly on the strings
    that hold a surrogate without its partner. *)
Theorem encodeURIComponent_fails_iff_lone_surrogate :
  forall s, encodeURIComponent s = None <-> isWellFormed s = false.
Proof.
  intros s. split.
  - intros H. destruct (isWellFormed s) eqn:Hw; [|reflexivity].
    destruct (encodeURIComponent_total s Hw) as [e He]. congruence.
  - intros H. destruct (encodeURIComponent s) as [e|] eqn:He; [|reflexivity].
    apply encodeURIComponent_Some_wellFormed in He. congruence.
Qed.

Lemma length_percentOctets os :
  length (percentOctets os) = (3 * length os)%nat.
Proof.
  unfold percentOctets. induction os as [|o os IH]; [reflexivity|].
  cbn [flat_map]. rewrite length_app, IH. simpl. lia.
Qed.

Lemma utf8_not_nil cp : (1 <= length (utf8 cp))%nat.
Proof.
  unfold utf8.
  destruct (N.ltb cp 128); [simpl; lia|].
  destruct (N.ltb cp 2048); [simpl; lia|].
  destruct (N.ltb cp 65536); simpl; lia.
Qed.

Lemma length_escapeCodePoint cp : (3 <= length (escapeCodePoint cp))%nat.
Proof.
  unfold escapeCodePoint. rewrite length_percentOctets.
  pose proof (utf8_not_nil cp). lia.
Qed.

(** The encoding is never shorter, and as long only if nothing was escaped. *)
Lemma encodeURIComponent_length s :
  forall e,
    encodeURIComponent s = Some e ->
    (length s <= length e)%nat
    /\ (length e = length s -> List.forallb uriUnescaped s = true).
Proof.
  induction s as [|c|c d rest IH0 IH1] using jsstring_pair_ind; intros e.
  - intros [= <-]. now split.
  - rewrite encodeURIComponent_cons.
    destruct (uriUnescaped c) eqn:Hu.
    { intros [= <-]. split; [reflexivity|]. intros _. simpl. now rewrite Hu. }
    destruct (isLeadingSurrogate c); [discriminate|].
    destruct (isTrailingSurrogate c); [discriminate|].
    intros [= <-]. rewrite app_nil_r.
    pose proof (length_escapeCodePoint c). cbn [length]. split; lia.
  - rewrite encodeURIComponent_cons.
    destruct (uriUnescaped c) eqn:Hu.
    + destruct (encodeURIComponent (d :: rest)) as [e'|] eqn:E; [|discriminate].
      intros [= <-]. destruct (IH1 e' eq_refl) as [Hle Heq].
      cbn [length forallb] in *. rewrite Hu. split; [lia|].
      intros H. apply Heq. lia.
    + destruct (isLeadingSurrogate c).
      * destruct (isTrailingSurrogate d); [|discriminate].
        destruct (encodeURIComponent rest) as [e'|] eqn:E; [|discriminate].
        intros [= <-]. destruct (IH0 e' eq_refl) as [Hle _].
        pose proof (length_escapeCodePoint (surrogatePair c d)).
        rewrite length_app. cbn [length] in *. split; lia.
      * destruct (isTrailingSurrogate c); [discriminate|].
        destruct (encodeURIComponent (d :: rest)) as [e'|] eqn:E; [|discriminate].
        intros [= <-]. destruct (IH1 e' eq_refl) as [Hle _].
        pose proof (length_escapeCodePoint c).
        rewrite length_app. cbn [length] in *. split; lia.
Qed.

(** X7. encodeURIComponent returns a string as it is exactly when the string
    is made of unreserved characters only: letters, digits and the marks
    [- _ . ! ~ * ' ( )]. *)
Theorem encodeURIComponent_identity_iff :
  forall s,
    encodeURIComponent s = Some s <-> List.forallb uriUnescaped s = true.
Proof.
  intros s. split.
  - intros H. now apply (encodeURIComponent_length s s H).
  - induction s as [|c s IH]; [reflexivity|].
    cbn [forallb]. rewrite andb_true_iff. intros [Hc Hs].
    rewrite encodeURIComponent_cons, Hc, (IH Hs). reflexivity.
Qed.

(** X8. Encoding goes through concatenation: behind a string that can be
    encoded, what follows is encoded on its own, and fails on its own. *)
Theorem encodeURIComponent_app :
  forall a b ea,
    encodeURIComponent a = Some ea ->
    encodeURIComponent (a ++ b) = app ea <$> encodeURIComponent b.
Proof.
  intros a b.
  induction a as [|c|c d rest IH0 IH1] using jsstring_pair_ind; intros ea.
  - intros [= <-]. simpl. now destruct (encodeURIComponent b).
  - change ([c] ++ b) with (c :: b).
    rewrite (encodeURIComponent_cons c []).
    destruct (uriUnescaped c) eqn:Hu.
    + intros [= <-]. rewrite encodeURIComponent_cons, Hu.
      now destruct (encodeURIComponent b).
    + destruct (isLeadingSurrogate c) eqn:Hl; [discriminate|].
      destruct (isTrailingSurrogate c) eqn:Ht; [discriminate|].
      intros [= <-]. rewrite encodeURIComponent_cons, Hu, Hl, Ht, app_nil_r.
      reflexivity.
  - change ((c :: d :: rest) ++ b) with (c :: d :: (rest ++ b)).
    rewrite (encodeURIComponent_cons c (d :: rest)),
      (encodeURIComponent_cons c (d :: rest ++ b)).
    change (d :: rest ++ b) with ((d :: rest) ++ b).
    destruct (uriUnescaped c).
    + destruct (encodeURIComponent (d :: rest)) as [e'|] eqn:E; [|discriminate].
      intros [= <-]. rewrite (IH1 e' eq_refl).
      now destruct (encodeURIComponent b).
    + destruct (isLeadingSurrogate c).
      * destruct (isTrailingSurrogate d); [|discriminate].
        destruct (encodeURIComponent rest) as [e'|] eqn:E; [|discriminate].
        intros [= <-]. rewrite (IH0 e' eq_refl).
        destruct (encodeURIComponent b); simpl; [|reflexivity].
        now rewrite List.app_assoc.
      * destruct (isTrailingSurrogate c); [discriminate|].
        destruct (encodeURIComponent (d :: rest)) as [e'|] eqn:E; [|discriminate].
        intros [= <-]. rewrite (IH1 e' eq_refl).
        destruct (encodeURIComponent b); simpl; [|reflexivity].
        now rewrite List.app_assoc.
Qed.

(** An instance of X8; without the condition the equation fails: a leading
    surrogate at the end of the first string pairs with what follows. *)
Lemma encodeURIComponent_app_witness :
  encodeURIComponent (js "a b") = Some (js "a%20b")
  /\ encodeURIComponent (js "a b" ++ js "/c") = Some (js "a%20b" ++ js "%2Fc")
  /\ encodeURIComponent (js "a b" ++ [0xDE00]) = None
  /\ encodeURIComponent [0xD83D] = None
  /\ encodeURIComponent ([0xD83D] ++ [0xDE00]) = Some (js "%F0%9F%98%80").
Proof.
  assert (H : encodeURIComponent (js "a b") = Some (js "a%20b")) by reflexivity.
  split; [exact H|]. split; [|split; [|split; reflexivity]].
  - rewrite (encodeURIComponent_app (js "a b") (js "/c") _ H). reflexivity.
  - rewrite (encodeURIComponent_app (js "a b") [0xDE00] _ H). reflexivity.
Defined.

(** *** The encoding can be read back *)

Ltac div_facts x k :=
  pose proof (N.div_mod x k ltac:(discriminate));
  pose proof (N.mod_lt x k ltac:(discriminate));
  pose proof (N.le_0_l (x / k));
  pose proof (N.le_0_l (x mod k)).

Ltac by_bits x :=
  destruct x as [|x]; [reflexivity|];
  do 8 (try (destruct x as [x|x|]; try lia; try reflexivity)).

Lemma lor_0x80 x : x < 64 -> N.lor 0x80 x = 128 + x.
Proof. intros H. by_bits x. Qed.

Lemma lor_0xC0 x : x < 32 -> N.lor 0xC0 x = 192 + x.
Proof. intros H. by_bits x. Qed.

Lemma lor_0xE0 x : x < 16 -> N.lor 0xE0 x = 224 + x.
Proof. intros H. by_bits x. Qed.

Lemma lor_0xF0 x : x < 8 -> N.lor 0xF0 x = 240 + x.
Proof. intros H. by_bits x. Qed.

Lemma shiftr_6 x : N.shiftr x 6 = x / 64.
Proof. now rewrite N.shiftr_div_pow2. Qed.

Lemma shiftr_12 x : N.shiftr x 12 = x / 64 / 64.
Proof. now rewrite N.shiftr_div_pow2, N.Div0.div_div. Qed.

Lemma shiftr_18 x : N.shiftr x 18 = x / 64 / 64 / 64.
Proof. now rewrite N.shiftr_div_pow2, !N.Div0.div_div. Qed.

Lemma land_0x3F x : N.land x 0x3F = x mod 64.
Proof. change 0x3F with (N.ones 6). now rewrite N.land_ones. Qed.

(** The UTF-8 octets in arithmetic, by the number of octets. *)
Lemma utf8_cases cp :
  cp < 0x110000 ->
  (cp < 128 /\ utf8 cp = [cp])
  \/ (128 <= cp < 2048 /\ utf8 cp = [192 + cp / 64; 128 + cp mod 64])
  \/ (2048 <= cp < 65536
      /\ utf8 cp = [224 + cp / 64 / 64; 128 + (cp / 64) mod 64; 128 + cp mod 64])
  \/ (65536 <= cp
      /\ utf8 cp = [240 + cp / 64 / 64 / 64; 128 + (cp / 64 / 64) mod 64;
                    128 + (cp / 64) mod 64; 128 + cp mod 64]).
Proof.
  intros Hcp. unfold utf8.
  rewrite shiftr_6, shiftr_12, shiftr_18, !land_0x3F.
  div_facts cp 64. div_facts (cp / 64) 64. div_facts (cp / 64 / 64) 64.
  destruct (N.ltb_spec cp 0x80); [left; now split|right].
  destruct (N.ltb_spec cp 0x800).
  { left. split; [lia|]. rewrite lor_0xC0, lor_0x80 by lia. reflexivity. }
  right. destruct (N.ltb_spec cp 0x10000).
  { left. split; [lia|]. rewrite lor_0xE0, !lor_0x80 by lia. reflexivity. }
  right. split; [lia|]. rewrite lor_0xF0, !lor_0x80 by lia. reflexivity.
Qed.

Lemma percentOctet_arith o :
  percentOctet o = [PERCENT; hexDigit ((o / 16) mod 16); hexDigit (o mod 16)].
Proof.
  unfold percentOctet. rewrite N.shiftr_div_pow2.
  change 15 with (N.ones 4). now rewrite !N.land_ones.
Qed.

Lemma hexDigit_inj a b : a < 16 -> b < 16 -> hexDigit a = hexDigit b -> a = b.
Proof.
  unfold hexDigit. intros Ha Hb.
  destruct (N.ltb_spec a 10), (N.ltb_spec b 10); lia.
Qed.

Lemma percentOctet_prefix o1 o2 x y :
  o1 < 256 -> o2 < 256 ->
  percentOctet o1 ++ x = percentOctet o2 ++ y -> o1 = o2 /\ x = y.
Proof.
  intros H1 H2. rewrite !percentOctet_arith. simpl. intros [= Hh Hl ->].
  div_facts o1 16. div_facts o2 16.
  div_facts (o1 / 16) 16. div_facts (o2 / 16) 16.
  apply hexDigit_inj in Hh; [|lia..]. apply hexDigit_inj in Hl; [|lia..].
  split; [|reflexivity].
  rewrite (N.mod_small (o1 / 16)), (N.mod_small (o2 / 16)) in Hh by lia.
  lia.
Qed.

(** The escapes of code points form a prefix code. *)
Lemma escapeCodePoint_prefix cp1 cp2 x y :
  cp1 < 0x110000 -> cp2 < 0x110000 ->
  escapeCodePoint cp1 ++ x = escapeCodePoint cp2 ++ y ->
  cp1 = cp2 /\ x = y.
Proof.
  intros H1 H2. unfold escapeCodePoint, percentOctets.
  div_facts cp1 64. div_facts (cp1 / 64) 64. div_facts (cp1 / 64 / 64) 64.
  div_facts cp2 64. div_facts (cp2 / 64) 64. div_facts (cp2 / 64 / 64) 64.
  destruct (utf8_cases cp1 H1) as [[R1 ->]|[[R1 ->]|[[R1 ->]|[R1 ->]]]];
  destruct (utf8_cases cp2 H2) as [[R2 ->]|[[R2 ->]|[[R2 ->]|[R2 ->]]]];
  cbn [flat_map]; rewrite <- ?List.app_assoc; cbn [app]; intros E;
  repeat (apply percentOctet_prefix in E; [|lia..]; destruct E as [? E]);
  first [exfalso; lia|split; [lia|exact E]].
Qed.

Lemma escapeCodePoint_head cp : exists rest, escapeCodePoint cp = PERCENT :: rest.
Proof.
  unfold escapeCodePoint, percentOctets, utf8.
  destruct (N.ltb cp 128); [now eexists|].
  destruct (N.ltb cp 2048); [now eexists|].
  destruct (N.ltb cp 65536); now eexists.
Qed.

Lemma surrogatePair_range c d :
  isLeadingSurrogate c = true -> isTrailingSurrogate d = true ->
  0x10000 <= surrogatePair c d < 0x110000.
Proof.
  unfold isLeadingSurrogate, isTrailingSurrogate, surrogatePair.
  rewrite !between_spec. lia.
Qed.

Lemma surrogatePair_inj c1 d1 c2 d2 :
  isLeadingSurrogate c1 = true -> isTrailingSurrogate d1 = true ->
  isLeadingSurrogate c2 = true -> isTrailingSurrogate d2 = true ->
  surrogatePair c1 d1 = surrogatePair c2 d2 -> c1 = c2 /\ d1 = d2.
Proof.
  unfold isLeadingSurrogate, isTrailingSurrogate, surrogatePair.
  rewrite !between_spec. lia.
Qed.

(** What the first code unit, or the first pair, of a string contributes. *)
Lemma encodeURIComponent_first c rest e :
  encodeURIComponent (c :: rest) = Some e ->
  (uriUnescaped c = true
   /\ exists e', encodeURIComponent rest = Some e' /\ e = c :: e')
  \/ (isLeadingSurrogate c = false /\ isTrailingSurrogate c = false
      /\ exists e', encodeURIComponent rest = Some e'
                    /\ e = escapeCodePoint c ++ e')
  \/ (exists d rest' e',
        rest = d :: rest'
        /\ isLeadingSurrogate c = true /\ isTrailingSurrogate d = true
        /\ encodeURIComponent rest' = Some e'
        /\ e = escapeCodePoint (surrogatePair c d) ++ e').
Proof.
  rewrite encodeURIComponent_cons.
  destruct (uriUnescaped c).
  { destruct (encodeURIComponent rest) as [e'|]; [|discriminate].
    intros [= <-]. left. split; [reflexivity|]. now exists e'. }
  destruct (isLeadingSurrogate c).
  { destruct rest as [|d rest']; [discriminate|].
    destruct (isTrailingSurrogate d) eqn:Hd; [|discriminate].
    destruct (encodeURIComponent rest') as [e'|] eqn:He; [|discriminate].
    intros [= <-]. right. right. exists d, rest', e'. repeat split; assumption. }
  destruct (isTrailingSurrogate c); [discriminate|].
  destruct (encodeURIComponent rest) as [e'|]; [|discriminate].
  intros [= <-]. right. left. split; [reflexivity|]. split; [reflexivity|].
  now exists e'.
Qed.

Lemma encodeURIComponent_nil_only s : encodeURIComponent s = Some [] -> s = [].
Proof.
  destruct s as [|c rest]; [reflexivity|]. intros H.
  apply encodeURIComponent_first in H.
  destruct H as [[_ (e' & _ & E)]|[(_ & _ & e' & _ & E)
                                  |(d & r & e' & _ & _ & _ & _ & E)]].
  - discriminate.
  - destruct (escapeCodePoint_head c) as [t Ht]. rewrite Ht in E. discriminate.
  - destruct (escapeCodePoint_head (surrogatePair c d)) as [t Ht].
    rewrite Ht in E. discriminate.
Qed.

Lemma encodeURIComponent_inj_bounded n :
  forall s1 s2 e,
    (length s1 <= n)%nat ->
    validUnits s1 -> validUnits s2 ->
    encodeURIComponent s1 = Some e -> encodeURIComponent s2 = Some e ->
    s1 = s2.
Proof.
  induction n as [|n IH]; intros s1 s2 e Hlen V1 V2 E1 E2.
  { destruct s1; [|simpl in Hlen; lia]. injection E1 as <-.
    symmetry. now apply encodeURIComponent_nil_only. }
  destruct s1 as [|c1 r1].
  { injection E1 as <-. symmetry. now apply encodeURIComponent_nil_only. }
  destruct s2 as [|c2 r2].
  { injection E2 as <-. now apply encodeURIComponent_nil_only. }
  apply Forall_cons_iff in V1. destruct V1 as [B1 V1].
  apply Forall_cons_iff in V2. destruct V2 as [B2 V2].
  cbn [length] in Hlen.
  apply encodeURIComponent_first in E1, E2.
  destruct E1 as [[U1 (e1 & E1 & ->)]
                 |[(L1 & T1 & e1 & E1 & ->)
                  |(d1 & q1 & e1 & -> & L1 & T1 & E1 & ->)]];
  destruct E2 as [[U2 (e2 & E2 & X)]
                 |[(L2 & T2 & e2 & E2 & X)
                  |(d2 & q2 & e2 & -> & L2 & T2 & E2 & X)]].
  - injection X as -> ->. f_equal. apply (IH r1 r2 e2); auto. lia.
  - destruct (escapeCodePoint_head c2) as [t Ht]. rewrite Ht in X.
    injection X as -> _. discriminate.
  - destruct (escapeCodePoint_head (surrogatePair c2 d2)) as [t Ht].
    rewrite Ht in X. injection X as -> _. discriminate.
  - destruct (escapeCodePoint_head c1) as [t Ht]. rewrite Ht in X.
    injection X as <- _. discriminate.
  - apply escapeCodePoint_prefix in X; [|lia..]. destruct X as [-> ->].
    f_equal. apply (IH r1 r2 e2); auto. lia.
  - pose proof (surrogatePair_range c2 d2 L2 T2).
    apply escapeCodePoint_prefix in X; [|lia..]. lia.
  - destruct (escapeCodePoint_head (surrogatePair c1 d1)) as [t Ht].
    rewrite Ht in X. injection X as <- _. discriminate.
  - pose proof (surrogatePair_range c1 d1 L1 T1).
    apply escapeCodePoint_prefix in X; [|lia..]. lia.
  - pose proof (surrogatePair_range c1 d1 L1 T1).
    pose proof (surrogatePair_range c2 d2 L2 T2).
    apply escapeCodePoint_prefix in X; [|lia..]. destruct X as [Hsp ->].
    apply surrogatePair_inj in Hsp; auto. destruct Hsp as [-> ->].
    apply Forall_cons_iff in V1. destruct V1 as [_ V1].
    apply Forall_cons_iff in V2. destruct V2 as [_ V2].
    do 2 f_equal. apply (IH q1 q2 e2); auto. cbn [length] in Hlen. lia.
Qed.

(** X9. encodeURIComponent is injective: two strings of UTF-16 code units
    with the same encoding are the same string, so an encoded slug stands for
    one slug only. *)
Theorem encodeURIComponent_injective :
  forall s1 s2 e,
    validUnits s1 -> validUnits s2 ->
    encodeURIComponent s1 = Some e ->
    encodeURIComponent s2 = Some e ->
    s1 = s2.
Proof.
  intros s1 s2 e. now apply (encodeURIComponent_inj_bounded (length s1)).
Qed.

(** An instance of X9: the encoding of a slash is the encoding of no other
    string, not even of the text %2F, whose percent sign is escaped. *)
Lemma encodeURIComponent_injective_witness :
  validUnits (js "/")
  /\ encodeURIComponent (js "/") = Some (js "%2F")
  /\ encodeURIComponent (js "%2F") = Some (js "%252F")
  /\ (forall s, validUnits s -> encodeURIComponent s = Some (js "%2F") ->
        s = js "/").
Proof.
  assert (V : validUnits (js "/")) by (repeat constructor).
  split; [exact V|]. split; [reflexivity|]. split; [reflexivity|].
  intros s Vs Hs. symmetry.
  exact (encodeURIComponent_injective (js "/") s (js "%2F") V Vs eq_refl Hs).
Defined.

Lemma until_separator (sep : codeunit) a1 a2 x y :
  ~ In sep a1 -> ~ In sep a2 ->
  a1 ++ sep :: x = a2 ++ sep :: y -> a1 = a2 /\ x = y.
Proof.
  revert a2. induction a1 as [|a a1 IH]; intros [|b a2] H1 H2 H; simpl in H.
  - injection H as <-. now split.
  - injection H as <- _. destruct H2. now left.
  - injection H as -> _. destruct H1. now left.
  - injection H as -> H.
    destruct (IH a2) as [-> ->]; try assumption; [| |now split];
      intros Hin; [apply H1|apply H2]; now right.
Qed.

Lemma encoded_has_no_slash s e : encodeURIComponent s = Some e -> ~ In SLASH e.
Proof.
  intros He Hin. apply encodeURIComponent_safe in He.
  rewrite Forall_forall in He.
  specialize (He SLASH (proj2 (list_elem_of_In _ _) Hin)). discriminate.
Qed.

(** X10. For one API URL, buildUrl sends different triples of org, project
    and environment to different URLs: the URL determines the three slugs. *)
Theorem buildUrl_injective :
  forall cfg1 cfg2 url,
    apiUrl cfg1 = apiUrl cfg2 ->
    validUnits (org cfg1) -> validUnits (project cfg1) ->
    validUnits (environment cfg1) ->
    validUnits (org cfg2) -> validUnits (project cfg2) ->
    validUnits (environment cfg2) ->
    buildUrl cfg1 = Return url ->
    buildUrl cfg2 = Return url ->
    org cfg1 = org cfg2
    /\ project cfg1 = project cfg2
    /\ environment cfg1 = environment cfg2.
Proof.
  intros cfg1 cfg2 url Hapi Vo1 Vp1 Ve1 Vo2 Vp2 Ve2.
  unfold buildUrl, encodeSlug, andThen.
  destruct (encodeURIComponent (org cfg1)) as [o1|] eqn:Eo1; [|discriminate].
  destruct (encodeURIComponent (project cfg1)) as [p1|] eqn:Ep1; [|discriminate].
  destruct (encodeURIComponent (environment cfg1)) as [e1|] eqn:Ee1; [|discriminate].
  destruct (encodeURIComponent (org cfg2)) as [o2|] eqn:Eo2; [|discriminate].
  destruct (encodeURIComponent (project cfg2)) as [p2|] eqn:Ep2; [|discriminate].
  destruct (encodeURIComponent (environment cfg2)) as [e2|] eqn:Ee2; [|discriminate].
  generalize (js "/api/v1/secrets/"). intros path H1 H2.
  injection H1 as <-. injection H2 as H. rewrite Hapi in H.
  apply app_inv_head in H. apply app_inv_head in H.
  apply until_separator in H; try (eapply encoded_has_no_slash; eassumption).
  destruct H as [-> H].
  apply until_separator in H; try (eapply encoded_has_no_slash; eassumption).
  destruct H as [-> ->].
  repeat split; eapply encodeURIComponent_inj_bounded;
    try eassumption; reflexivity.
Qed.

(** An instance of X10: the slugs a/b, c and the slugs a, b/c give two URLs,
    and a URL built from a/b, c and production is built from no other
    slugs. *)
Lemma buildUrl_injective_witness :
  let cfg1 := withSlugs (js "a/b") (js "c") (js "production")
                (exampleCfg "t" "env") in
  let cfg2 := withSlugs (js "a") (js "b/c") (js "production")
                (exampleCfg "t" "env") in
  buildUrl cfg1
  = Return (js "https://app.envshed.com/api/v1/secrets/a%2Fb/c/production")
  /\ buildUrl cfg2
     = Return (js "https://app.envshed.com/api/v1/secrets/a/b%2Fc/production")
  /\ (forall cfg url,
        apiUrl cfg = apiUrl cfg1 ->
        validUnits (org cfg) -> validUnits (project cfg) ->
        validUnits (environment cfg) ->
        buildUrl cfg1 = Return url -> buildUrl cfg = Return url ->
        org cfg = js "a/b").
Proof.
  intros cfg1 cfg2. split; [reflexivity|]. split; [reflexivity|].
  intros cfg url Hapi Vo Vp Ve H1 H.
  assert (V1 : validUnits (org cfg1)) by (repeat constructor).
  assert (V2 : validUnits (project cfg1)) by (repeat constructor).
  assert (V3 : validUnits (environment cfg1)) by (repeat constructor).
  symmetry.
  exact (proj1 (buildUrl_injective cfg1 cfg url (eq_sym Hapi)
                  V1 V2 V3 Vo Vp Ve H1 H)).
Defined.

(** ** The run, case by case *)

Lemma bind_lift_throw {A B} (e : Exn) (k : A -> Action B) :
  bind (lift (Throw e)) k = ([], Throw e).
Proof. reflexivity. Qed.

(** How a run can go up to the response. *)
Lemma run_cases h :
  (exists e, getInputs (inputs h) = Throw e /\ run h = ([], Throw e))
  \/ (exists cfg,
        getInputs (inputs h) = Return cfg
        /\ exportTo cfg <> js "env" /\ exportTo cfg <> js "file"
        /\ run h = ([], Throw (Error (invalidExportTo (exportTo cfg)))))
  \/ (exists cfg,
        getInputs (inputs h) = Return cfg
        /\ (exportTo cfg = js "env" \/ exportTo cfg = js "file")
        /\ buildUrl cfg = Throw URIError
        /\ run h = ([], Throw URIError))
  \/ (exists cfg url what,
        getInputs (inputs h) = Return cfg
        /\ (exportTo cfg = js "env" \/ exportTo cfg = js "file")
        /\ buildUrl cfg = Return url
        /\ getJson h url (bearer cfg) = Failed what
        /\ run h = ([HttpGetJson url (bearer cfg) ACCEPT], Throw (Foreign what)))
  \/ (exists cfg url r,
        Fetched h cfg url r
        /\ run h = (HttpGetJson url (bearer cfg) ACCEPT
                      :: trace (checkResponse h cfg r),
                    outcome (checkResponse h cfg r))).
Proof.
  destruct (getInputs (inputs h)) as [cfg|e] eqn:Hin.
  2:{ left. exists e. split; [reflexivity|]. unfold run. now rewrite Hin. }
  right.
  destruct (jsstring_eqb (exportTo cfg) (js "env")) eqn:Henv;
    [|destruct (jsstring_eqb (exportTo cfg) (js "file")) eqn:Hfile].
  3:{ left. exists cfg. apply jsstring_eqb_neq in Henv, Hfile.
      repeat split; try assumption.
      unfold run. rewrite Hin, bind_lift_return.
      apply jsstring_eqb_neq in Henv, Hfile. now rewrite Henv, Hfile. }
  all: right;
    assert (Hmode : exportTo cfg = js "env" \/ exportTo cfg = js "file")
      by (first [left; now apply jsstring_eqb_eq
                |right; now apply jsstring_eqb_eq]);
    destruct (buildUrl cfg) as [url|e] eqn:Hurl;
    [|left; exists cfg; pose proof (buildUrl_throws _ _ Hurl); subst e;
      repeat split; try assumption;
      unfold run; rewrite Hin, bind_lift_return, (exportTo_accepted cfg Hmode);
      unfold fetch; rewrite Hurl; reflexivity];
    right;
    destruct (getJson h url (bearer cfg)) as [r|what] eqn:Hget;
    [right; exists cfg, url, r;
     assert (Hf : Fetched h cfg url r) by (repeat split; assumption);
     split; [exact Hf|]; now apply run_fetched
    |left; exists cfg, url, what; repeat split; try assumption;
     unfold run; rewrite Hin, bind_lift_return, (exportTo_accepted cfg Hmode);
     unfold fetch; rewrite Hurl, bind_lift_return, bind_emit, Hget;
     reflexivity].
Qed.

(** How the checks of a response can go. *)
Lemma checkResponse_cases h cfg r :
  (statusCode r <> 200
   /\ checkResponse h cfg r = ([], Throw (Error (fetchFailed (statusCode r)))))
  \/ (statusCode r = 200
      /\ checkResponse h cfg r = ([], Throw (Error missingSecrets)))
  \/ (exists body secrets_,
        statusCode r = 200 /\ result r = Some body
        /\ secrets body = Some secrets_
        /\ checkResponse h cfg r = deliverPayload h cfg body secrets_).
Proof.
  destruct (N.eq_dec (statusCode r) 200) as [Hs|Hs].
  2:{ left. split; [exact Hs|]. now apply checkResponse_status. }
  right. destruct (result r) as [body|] eqn:Hr.
  2:{ left. split; [exact Hs|]. apply checkResponse_missing; auto. }
  destruct (secrets body) as [secrets_|] eqn:Hsec.
  2:{ left. split; [exact Hs|]. apply checkResponse_missing; [exact Hs|].
      right. now exists body. }
  right. exists body, secrets_. repeat split; try assumption.
  now apply checkResponse_ok.
Qed.

Lemma flat_map_nil_if {A B} (f : A -> list B) l :
  (forall x, In x l -> f x = []) -> flat_map f l = [].
Proof.
  induction l as [|x l IH]; intros H; [reflexivity|].
  simpl. rewrite (H x) by now left. apply IH. intros y Hy. apply H. now right.
Qed.

Lemma in_exportSteps_inv e entries :
  In e (flat_map exportStep entries) ->
  (exists v, e = SetSecret v /\ v <> [] /\ In v (List.map snd entries))
  \/ (exists k v, e = ExportVariable k v /\ In (k, v) entries).
Proof.
  rewrite in_flat_map. intros ([k v] & Hin & H).
  unfold exportStep in H. simpl in H. destruct v as [|c v]; simpl in H.
  - destruct H as [<-|[]]. right. now exists k, [].
  - destruct H as [<-|[<-|[]]].
    + left. exists (c :: v). repeat split; [discriminate|].
      apply in_map_iff. now exists (k, c :: v).
    + right. now exists k, (c :: v).
Qed.

Lemma in_maskSteps_inv e entries :
  In e (flat_map maskStep entries) ->
  exists v, e = SetSecret v /\ v <> [] /\ In v (List.map snd entries).
Proof.
  rewrite in_flat_map. intros ([k v] & Hin & H).
  unfold maskStep in H. simpl in H. destruct v as [|c v]; simpl in H; [destruct H|].
  destruct H as [<-|[]]. exists (c :: v). repeat split; [discriminate|].
  apply in_map_iff. now exists (k, c :: v).
Qed.

Lemma exportCalls_exportSteps entries :
  exportCalls (flat_map exportStep entries) = entries.
Proof.
  unfold exportCalls. induction entries as [|[k v] entries IH]; [reflexivity|].
  cbn [flat_map]. rewrite flat_map_app, IH. unfold exportStep.
  now destruct v.
Qed.

Lemma no_calls_decryptWarning {A} (sel : Event -> list A) body :
  (forall m, sel (Warning m) = []) -> flat_map sel (decryptWarning body) = [].
Proof.
  intros H. apply flat_map_nil_if. intros e He.
  apply in_decryptWarning in He. destruct He as [m ->]. apply H.
Qed.

Lemma no_calls_maskSteps {A} (sel : Event -> list A) entries :
  (forall v, sel (SetSecret v) = []) -> flat_map sel (flat_map maskStep entries) = [].
Proof.
  intros H. apply flat_map_nil_if. intros e He.
  apply in_maskSteps in He. destruct He as [v ->]. apply H.
Qed.

Lemma no_calls_exportSteps {A} (sel : Event -> list A) entries :
  (forall v, sel (SetSecret v) = []) ->
  (forall k v, sel (ExportVariable k v) = []) ->
  flat_map sel (flat_map exportStep entries) = [].
Proof.
  intros H1 H2. apply flat_map_nil_if. intros e He.
  apply in_exportSteps_inv in He.
  destruct He as [(v & -> & _)|(k & v & -> & _)]; [apply H1|apply H2].
Qed.

(** A validated run is the request followed by the delivery. *)
Lemma run_validated h cfg url r body secrets_ :
  Fetched h cfg url r ->
  statusCode r = 200 -> result r = Some body -> secrets body = Some secrets_ ->
  run h = (HttpGetJson url (bearer cfg) ACCEPT
             :: trace (deliverPayload h cfg body secrets_),
           outcome (deliverPayload h cfg body secrets_)).
Proof.
  intros Hf Hs Hr Hsec.
  now rewrite (run_fetched _ _ _ _ Hf), (checkResponse_ok _ _ _ _ _ Hs Hr Hsec).
Qed.

(** ** The two delivery modes *)

Lemma calls_cons {A} (sel : Event -> list A) e tr :
  flat_map sel (e :: tr) = sel e ++ flat_map sel tr.
Proof. reflexivity. Qed.

(** X11. In the env mode a validated run exports every entry of the record
    exactly once, in the record's order and with its own value, the empty
    values too; it writes no file, and it ends normally. *)
Theorem env_mode_exports_every_entry :
  forall h cfg url r body secrets_,
    Fetched h cfg url r ->
    statusCode r = 200 ->
    result r = Some body ->
    secrets body = Some secrets_ ->
    exportTo cfg = js "env" ->
    exportCalls (trace (run h)) = secrets_
    /\ writeCalls (trace (run h)) = []
    /\ outcome (run h) = Return tt.
Proof.
  intros h cfg url r body secrets_ Hf Hs Hr Hsec Henv.
  rewrite (run_validated _ _ _ _ _ _ Hf Hs Hr Hsec), deliverPayload_unfold.
  destruct secrets_ as [|entry rest].
  { unfold trace, outcome, exportCalls, writeCalls. cbn [fst snd].
    rewrite !calls_cons, !flat_map_app, !no_calls_decryptWarning by reflexivity.
    now repeat split. }
  rewrite Henv. change (jsstring_eqb (js "env") (js "env")) with true.
  unfold trace, outcome. cbn [fst snd]. repeat split.
  - unfold exportCalls. rewrite calls_cons, !flat_map_app.
    rewrite no_calls_decryptWarning by reflexivity.
    fold (exportCalls (flat_map exportStep (entry :: rest))).
    rewrite exportCalls_exportSteps. cbn [app flat_map]. now rewrite app_nil_r.
  - unfold writeCalls. rewrite calls_cons, !flat_map_app.
    rewrite no_calls_decryptWarning, no_calls_exportSteps by reflexivity.
    reflexivity.
Qed.

(** An instance of X11: the three example entries, one with an empty
    value. *)
Lemma env_mode_exports_every_entry_witness :
  let r := exampleResponse 200 (Some (examplePayload (Some exampleSecrets))) in
  let h := exampleHost "envshed_test_token_abc123" "env" r in
  let cfg := exampleCfg "envshed_test_token_abc123" "env" in
  Fetched h cfg exampleUrl r
  /\ statusCode r = 200
  /\ result r = Some (examplePayload (Some exampleSecrets))
  /\ secrets (examplePayload (Some exampleSecrets)) = Some exampleSecrets
  /\ exportTo cfg = js "env"
  /\ exportCalls (trace (run h))
     = [(js "DB_URL", js "postgres://localhost/db"); (js "EMPTY", []);
        (js "SECRET", js "my-secret")].
Proof.
  intros r h cfg.
  assert (F : Fetched h cfg exampleUrl r).
  { unfold Fetched. split; [vm_compute; reflexivity|].
    split; [left; reflexivity|].
    split; [vm_compute; reflexivity|reflexivity]. }
  refine (conj F (conj eq_refl (conj eq_refl (conj eq_refl (conj eq_refl _))))).
  exact (proj1 (env_mode_exports_every_entry h cfg exampleUrl r _ _ F
                  eq_refl eq_refl eq_refl eq_refl)).
Defined.

Lemma file_mode_not_env cfg :
  exportTo cfg = js "file" -> jsstring_eqb (exportTo cfg) (js "env") = false.
Proof. intros ->. reflexivity. Qed.

(** X12. In the file mode a validated run with a record that is not empty
    writes once, the formatted record to the resolved file path, after the
    masks; it exports nothing. If the write succeeds, the run names the path
    in an info message, then reports the count and the version, and ends
    normally. The version is a safe integer, so that its text is its
    decimal digits. *)
Theorem file_mode_writes_once :
  forall h cfg url r body secrets_,
    Fetched h cfg url r ->
    statusCode r = 200 ->
    result r = Some body ->
    secrets body = Some secrets_ ->
    secrets_ <> [] ->
    safeInteger (version body) ->
    exportTo cfg = js "file" ->
    writeFileSync h (resolve h (filePath cfg)) (formatEnvFile secrets_) = Done tt ->
    writeCalls (trace (run h))
    = [(resolve h (filePath cfg), formatEnvFile secrets_)]
    /\ exportCalls (trace (run h)) = []
    /\ infoCalls (trace (run h))
       = [js "Wrote secrets to " ++ resolve h (filePath cfg);
          loaded (length secrets_) (version body)]
    /\ outcome (run h) = Return tt.
Proof.
  intros h cfg url r body secrets_ Hf Hs Hr Hsec Hne _ Hfile Hw.
  rewrite (run_validated _ _ _ _ _ _ Hf Hs Hr Hsec), deliverPayload_unfold.
  destruct secrets_ as [|entry rest]; [now destruct Hne|].
  rewrite (file_mode_not_env cfg Hfile). cbv zeta. rewrite Hw.
  unfold trace, outcome. cbn [fst snd].
  unfold writeCalls, exportCalls, infoCalls.
  rewrite !calls_cons, !flat_map_app.
  rewrite !no_calls_decryptWarning, !no_calls_maskSteps by reflexivity.
  now repeat split.
Qed.

(** An instance of X12: the example of two secrets written to out.env. *)
Lemma file_mode_writes_once_witness :
  let secrets_ := [(js "DB_URL", js "postgres://localhost/db");
                   (js "SECRET", js "my-secret")] in
  let r := exampleResponse 200 (Some (examplePayload (Some secrets_))) in
  let h := exampleHost "envshed_test_token_abc123" "file" r in
  let cfg := exampleCfg "envshed_test_token_abc123" "file" in
  Fetched h cfg exampleUrl r
  /\ secrets_ <> []
  /\ safeInteger (version (examplePayload (Some secrets_)))
  /\ exportTo cfg = js "file"
  /\ writeFileSync h (resolve h (filePath cfg)) (formatEnvFile secrets_) = Done tt
  /\ writeCalls (trace (run h))
     = [(js "/work/out.env",
         js "DB_URL=" ++ [QUOTE] ++ js "postgres://localhost/db" ++ [QUOTE; LF]
           ++ js "SECRET=" ++ [QUOTE] ++ js "my-secret" ++ [QUOTE; LF])]
  /\ infoCalls (trace (run h))
     = [js "Wrote secrets to /work/out.env";
        js "Loaded 2 secrets from Envshed (v1)."].
Proof.
  intros secrets_ r h cfg.
  assert (F : Fetched h cfg exampleUrl r).
  { unfold Fetched. split; [vm_compute; reflexivity|].
    split; [right; reflexivity|].
    split; [vm_compute; reflexivity|reflexivity]. }
  assert (Hne : secrets_ <> []) by discriminate.
  assert (Hv : safeInteger (version (examplePayload (Some secrets_))))
    by (unfold safeInteger; simpl; lia).
  refine (conj F (conj Hne (conj Hv (conj eq_refl (conj eq_refl _))))).
  destruct (file_mode_writes_once h cfg exampleUrl r _ secrets_ F
              eq_refl eq_refl eq_refl Hne Hv eq_refl eq_refl)
    as (Hw & _ & Hi & _).
  rewrite Hw, Hi. split; vm_compute; reflexivity.
Defined.

(** X13. In the file mode, when the file system refuses the write, the run
    throws that failure: the values are masked and the write was attempted,
    but no info message is emitted, neither the path nor the count. *)
Theorem file_mode_write_failure :
  forall h cfg url r body secrets_ what,
    Fetched h cfg url r ->
    statusCode r = 200 ->
    result r = Some body ->
    secrets body = Some secrets_ ->
    secrets_ <> [] ->
    exportTo cfg = js "file" ->
    writeFileSync h (resolve h (filePath cfg)) (formatEnvFile secrets_)
    = Failed what ->
    outcome (run h) = Throw (Foreign what)
    /\ infoCalls (trace (run h)) = []
    /\ maskCalls (trace (run h)) = nonEmptyValues secrets_
    /\ writeCalls (trace (run h))
       = [(resolve h (filePath cfg), formatEnvFile secrets_)].
Proof.
  intros h cfg url r body secrets_ what Hf Hs Hr Hsec Hne Hfile Hw.
  rewrite (run_validated _ _ _ _ _ _ Hf Hs Hr Hsec), deliverPayload_unfold.
  destruct secrets_ as [|entry rest]; [now destruct Hne|].
  rewrite (file_mode_not_env cfg Hfile). cbv zeta. rewrite Hw.
  unfold trace, outcome. cbn [fst snd].
  unfold writeCalls, infoCalls.
  rewrite !calls_cons, !flat_map_app.
  rewrite !no_calls_decryptWarning, !no_calls_maskSteps by reflexivity.
  repeat split.
  change (maskCalls (decryptWarning body ++ flat_map maskStep (entry :: rest)
            ++ [WriteFileSync (resolve h (filePath cfg))
                  (formatEnvFile (entry :: rest))])
          = nonEmptyValues (entry :: rest)).
  rewrite !maskCalls_app, maskCalls_decryptWarning, maskCalls_mask.
  apply app_nil_r.
Qed.

(** An instance of X13: a file system that refuses every write. *)
Lemma file_mode_write_failure_witness :
  let r := exampleResponse 200 (Some (examplePayload (Some exampleSecrets))) in
  let h := {| inputs := exampleInputs "envshed_test_token_abc123" "file";
              getJson := fun _ _ => Done r;
              resolve := fun p => js "/work/" ++ p;
              writeFileSync := fun _ _ => Failed (js "EACCES: permission denied") |} in
  let cfg := exampleCfg "envshed_test_token_abc123" "file" in
  Fetched h cfg exampleUrl r
  /\ exampleSecrets <> []
  /\ exportTo cfg = js "file"
  /\ outcome (run h) = Throw (Foreign (js "EACCES: permission denied"))
  /\ infoCalls (trace (run h)) = [].
Proof.
  intros r h cfg.
  assert (F : Fetched h cfg exampleUrl r).
  { unfold Fetched. split; [vm_compute; reflexivity|].
    split; [right; reflexivity|].
    split; [vm_compute; reflexivity|reflexivity]. }
  assert (Hne : exampleSecrets <> []) by discriminate.
  refine (conj F (conj Hne (conj eq_refl _))).
  destruct (file_mode_write_failure h cfg exampleUrl r _ exampleSecrets _ F
              eq_refl eq_refl eq_refl Hne eq_refl eq_refl)
    as (Ho & Hi & _).
  now split.
Defined.

(** ** What a run reports and what it touches *)

(** The events of the delivery, sorted by kind. *)
Lemma deliverPayload_events h cfg body secrets_ e :
  In e (trace (deliverPayload h cfg body secrets_)) ->
  (exists m, e = Warning m)
  \/ (exists m, e = Info m)
  \/ (exists v, e = SetSecret v /\ v <> [] /\ In v (List.map snd secrets_))
  \/ (exportTo cfg = js "env"
      /\ exists k v, e = ExportVariable k v /\ In (k, v) secrets_)
  \/ (exportTo cfg <> js "env"
      /\ e = WriteFileSync (resolve h (filePath cfg)) (formatEnvFile secrets_)).
Proof.
  rewrite deliverPayload_unfold.
  destruct secrets_ as [|entry rest].
  { unfold trace. cbn [fst]. intros H. apply in_app_or in H.
    destruct H as [H|[<-|[]]]; [|left; now eexists].
    apply in_decryptWarning in H. now left. }
  destruct (jsstring_eqb (exportTo cfg) (js "env")) eqn:Henv.
  { apply jsstring_eqb_eq in Henv. unfold trace. cbn [fst]. intros H.
    apply in_app_or in H. destruct H as [H|H];
      [apply in_decryptWarning in H; now left|].
    apply in_app_or in H. destruct H as [H|[<-|[]]];
      [|right; left; now eexists].
    apply in_exportSteps_inv in H.
    destruct H as [(v & -> & Hv & Hin)|(k & v & -> & Hin)].
    - right. right. left. now exists v.
    - right. right. right. left. split; [exact Henv|]. now exists k, v. }
  apply jsstring_eqb_neq in Henv. cbv zeta.
  assert (Hpre : forall tail,
    (forall x, In x tail ->
       x = WriteFileSync (resolve h (filePath cfg)) (formatEnvFile (entry :: rest))
       \/ exists m, x = Info m) ->
    In e (decryptWarning body ++ flat_map maskStep (entry :: rest) ++ tail) ->
    (exists m, e = Warning m)
    \/ (exists m, e = Info m)
    \/ (exists v, e = SetSecret v /\ v <> []
                  /\ In v (List.map snd (entry :: rest)))
    \/ (exportTo cfg = js "env"
        /\ exists k v, e = ExportVariable k v /\ In (k, v) (entry :: rest))
    \/ (exportTo cfg <> js "env"
        /\ e = WriteFileSync (resolve h (filePath cfg))
                 (formatEnvFile (entry :: rest)))).
  { intros tail Htail H. apply in_app_or in H. destruct H as [H|H];
      [apply in_decryptWarning in H; now left|].
    apply in_app_or in H. destruct H as [H|H].
    - apply in_maskSteps_inv in H. tauto.
    - destruct (Htail e H) as [->|Hm]; [|tauto]. repeat right. now split. }
  destruct (writeFileSync h (resolve h (filePath cfg))
              (formatEnvFile (entry :: rest))) as [[]|what];
    unfold trace; cbn [fst]; apply Hpre; intros x Hx.
  - destruct Hx as [<-|[<-|[<-|[]]]]; [now left|right; now eexists..].
  - destruct Hx as [<-|[]]. now left.
Qed.

(** X14. A validated run with a record that is not empty, when it ends
    normally, ends on the info message that reports the count and the
    version: secret for one entry, secrets for any other count. The version
    is a safe integer, so that its text is its decimal digits. *)
Theorem run_reports_count_and_version :
  forall h cfg url r body secrets_,
    Fetched h cfg url r ->
    statusCode r = 200 ->
    result r = Some body ->
    secrets body = Some secrets_ ->
    secrets_ <> [] ->
    safeInteger (version body) ->
    outcome (run h) = Return tt ->
    exists before,
      trace (run h)
      = before
          ++ [Info (js "Loaded " ++ N_to_js (N.of_nat (length secrets_))
                      ++ js (if Nat.eqb (length secrets_) 1
                             then " secret" else " secrets")
                      ++ js " from Envshed (v" ++ Z_to_js (version body)
                      ++ js ").")].
Proof.
  intros h cfg url r body secrets_ Hf Hs Hr Hsec Hne _.
  rewrite (run_validated _ _ _ _ _ _ Hf Hs Hr Hsec), deliverPayload_unfold.
  assert (Htext :
    loaded (length secrets_) (version body)
    = js "Loaded " ++ N_to_js (N.of_nat (length secrets_))
        ++ js (if Nat.eqb (length secrets_) 1 then " secret" else " secrets")
        ++ js " from Envshed (v" ++ Z_to_js (version body) ++ js ").").
  { unfold loaded. now destruct (Nat.eqb (length secrets_) 1). }
  rewrite <- Htext. clear Htext.
  destruct secrets_ as [|entry rest]; [now destruct Hne|].
  unfold trace, outcome.
  destruct (jsstring_eqb (exportTo cfg) (js "env")).
  { cbn [fst snd]. intros _.
    exists (HttpGetJson url (bearer cfg) ACCEPT
              :: decryptWarning body ++ flat_map exportStep (entry :: rest)).
    cbn [app]. now rewrite <- !List.app_assoc. }
  cbv zeta.
  destruct (writeFileSync h (resolve h (filePath cfg))
              (formatEnvFile (entry :: rest))) as [[]|what];
    cbn [fst snd]; [intros _|discriminate].
  exists (HttpGetJson url (bearer cfg) ACCEPT
            :: decryptWarning body ++ flat_map maskStep (entry :: rest)
            ++ [WriteFileSync (resolve h (filePath cfg))
                  (formatEnvFile (entry :: rest));
                Info (js "Wrote secrets to " ++ resolve h (filePath cfg))]).
  cbn [app]. now rewrite <- !List.app_assoc.
Qed.

(** An instance of X14: one secret, version 7. *)
Lemma run_reports_count_and_version_witness :
  let body := {| secrets := Some [(js "ONLY_ONE", js "value")];
                 placeholders := []; version := 7;
                 linkedKeys := None; decryptErrors := None |} in
  let r := exampleResponse 200 (Some body) in
  let h := exampleHost "envshed_test_token_abc123" "env" r in
  let cfg := exampleCfg "envshed_test_token_abc123" "env" in
  Fetched h cfg exampleUrl r
  /\ safeInteger (version body)
  /\ outcome (run h) = Return tt
  /\ exists before,
       trace (run h) = before ++ [Info (js "Loaded 1 secret from Envshed (v7).")].
Proof.
  intros body r h cfg.
  assert (F : Fetched h cfg exampleUrl r).
  { unfold Fetched. split; [vm_compute; reflexivity|].
    split; [left; reflexivity|].
    split; [vm_compute; reflexivity|reflexivity]. }
  assert (Ho : outcome (run h) = Return tt) by (vm_compute; reflexivity).
  assert (Hv : safeInteger (version body)) by (unfold safeInteger; simpl; lia).
  refine (conj F (conj Hv (conj Ho _))).
  destruct (run_reports_count_and_version h cfg exampleUrl r body
              [(js "ONLY_ONE", js "value")] F eq_refl eq_refl eq_refl
              ltac:(discriminate) Hv Ho) as [before Hb].
  exists before. exact Hb.
Defined.

(** X15. Decrypt errors only warn. When the payload lists names that could
    not be decrypted, the run emits, right after the request, one warning
    with the names joined by a comma and a space, and then goes on exactly
    as it does for the same payload without that list: the same calls and
    the same end. *)
Theorem decrypt_errors_only_warn :
  forall h cfg url r body secrets_ name names,
    Fetched h cfg url r ->
    statusCode r = 200 ->
    result r = Some body ->
    secrets body = Some secrets_ ->
    decryptErrors body = Some (name :: names) ->
    let h' := answering {| statusCode := 200;
                           result := Some (withoutDecryptErrors body) |} h in
    exists rest,
      trace (run h') = HttpGetJson url (bearer cfg) ACCEPT :: rest
      /\ trace (run h)
         = HttpGetJson url (bearer cfg) ACCEPT
             :: Warning (js "Some secrets could not be decrypted: "
                           ++ join (js ", ") (name :: names))
             :: rest
      /\ outcome (run h) = outcome (run h').
Proof.
  intros h cfg url r body secrets_ name names Hf Hs Hr Hsec Herr h'.
  assert (Hf' : Fetched h' cfg url
                  {| statusCode := 200;
                     result := Some (withoutDecryptErrors body) |}).
  { destruct Hf as (Hin & Hmode & Hurl & _). now repeat split. }
  rewrite (run_validated _ _ _ _ _ _ Hf Hs Hr Hsec).
  rewrite (run_validated _ _ _ _ (withoutDecryptErrors body) secrets_ Hf'
             eq_refl eq_refl Hsec).
  exists (trace (deliverPayload h' cfg (withoutDecryptErrors body) secrets_)).
  split; [reflexivity|].
  rewrite !deliverPayload_unfold.
  unfold decryptWarning, hasDecryptErrors. rewrite Herr.
  change (decryptErrors (withoutDecryptErrors body)) with (@None (list jsstring)).
  change (version (withoutDecryptErrors body)) with (version body).
  change (resolve h') with (resolve h).
  change (writeFileSync h') with (writeFileSync h).
  cbv iota. cbn [option.default default].
  destruct secrets_ as [|entry rest]; [now split|].
  destruct (jsstring_eqb (exportTo cfg) (js "env")); [now split|].
  cbv zeta.
  destruct (writeFileSync h (resolve h (filePath cfg))
              (formatEnvFile (entry :: rest))) as [[]|what]; now split.
Qed.

(** An instance of X15: the payload of the staging environment of the mock
    server, with one key that could not be decrypted. *)
Lemma decrypt_errors_only_warn_witness :
  let body := {| secrets := Some [(js "DEBUG", js "true")];
                 placeholders := [js "DEBUG"]; version := 7;
                 linkedKeys := None;
                 decryptErrors := Some [js "OLD_LEGACY_KEY"] |} in
  let r := exampleResponse 200 (Some body) in
  let h := exampleHost "envshed_test_token_abc123" "env" r in
  let cfg := exampleCfg "envshed_test_token_abc123" "env" in
  Fetched h cfg exampleUrl r
  /\ decryptErrors body = Some [js "OLD_LEGACY_KEY"]
  /\ warningCalls (trace (run h))
     = [js "Some secrets could not be decrypted: OLD_LEGACY_KEY"]
  /\ outcome (run h) = Return tt.
Proof.
  intros body r h cfg.
  assert (F : Fetched h cfg exampleUrl r).
  { unfold Fetched. split; [vm_compute; reflexivity|].
    split; [left; reflexivity|].
    split; [vm_compute; reflexivity|reflexivity]. }
  refine (conj F (conj eq_refl _)).
  destruct (decrypt_errors_only_warn h cfg exampleUrl r body
              [(js "DEBUG", js "true")] (js "OLD_LEGACY_KEY") []
              F eq_refl eq_refl eq_refl eq_refl)
    as (rest & Hrest & -> & ->).
  vm_compute in Hrest. injection Hrest as <-.
  split; vm_compute; reflexivity.
Defined.

Lemma requestCalls_deliverPayload h cfg body secrets_ :
  requestCalls (trace (deliverPayload h cfg body secrets_)) = [].
Proof.
  apply flat_map_nil_if. intros e He.
  apply deliverPayload_events in He.
  destruct He as [[m ->]|[[m ->]|[(v & -> & _)|[(_ & k & v & -> & _)|[_ ->]]]]];
    reflexivity.
Qed.

Lemma requestCalls_checkResponse h cfg r :
  requestCalls (trace (checkResponse h cfg r)) = [].
Proof.
  destruct (checkResponse_cases h cfg r)
    as [[_ ->]|[[_ ->]|(body & secrets_ & _ & _ & _ & ->)]];
    [reflexivity..|apply requestCalls_deliverPayload].
Qed.

(** X16. A run makes at most one request, and the request is the first thing
    it does: either the trace is empty, or it starts with the one GET of the
    URL that buildUrl gives for the configuration read, with the header
    Bearer and the token and the Accept header for JSON, and no request
    follows. *)
Theorem run_requests_once_and_first :
  forall h,
    trace (run h) = []
    \/ exists cfg url rest,
         getInputs (inputs h) = Return cfg
         /\ buildUrl cfg = Return url
         /\ trace (run h)
            = HttpGetJson url (js "Bearer " ++ token cfg) (js "application/json")
                :: rest
         /\ requestCalls rest = [].
Proof.
  intros h.
  destruct (run_cases h)
    as [(e & _ & ->)
       |[(cfg & _ & _ & _ & ->)
        |[(cfg & _ & _ & _ & ->)
         |[(cfg & url & what & Hin & _ & Hurl & _ & ->)
          |(cfg & url & r & Hf & ->)]]]]; [now left..| |].
  - right. exists cfg, url, []. now repeat split.
  - right. exists cfg, url, (trace (checkResponse h cfg r)).
    destruct Hf as (Hin & _ & Hurl & _).
    repeat split; try assumption. apply requestCalls_checkResponse.
Qed.

(** X17. Nothing is handed on without a validated payload: a mask, an export
    or a file write in the trace of a run means that the response had status
    200 and a secrets record, and the call concerns that record: a masked
    value is a non-empty value of it, an exported pair is an entry of it in
    the env mode, and a write is the formatted record, to the resolved path,
    in the file mode. *)
Theorem delivery_needs_validated_payload :
  forall h e,
    In e (trace (run h)) ->
    isDelivery e = true ->
    exists cfg url r body secrets_,
      Fetched h cfg url r
      /\ statusCode r = 200
      /\ result r = Some body
      /\ secrets body = Some secrets_
      /\ match e with
         | SetSecret v => v <> [] /\ In v (List.map snd secrets_)
         | ExportVariable k v => exportTo cfg = js "env" /\ In (k, v) secrets_
         | WriteFileSync p c =>
             exportTo cfg = js "file"
             /\ p = resolve h (filePath cfg) /\ c = formatEnvFile secrets_
         | _ => True
         end.
Proof.
  intros h e Hin Hd.
  destruct (run_cases h)
    as [(x & _ & E)
       |[(cfg & _ & _ & _ & E)
        |[(cfg & _ & _ & _ & E)
         |[(cfg & url & what & _ & _ & _ & _ & E)
          |(cfg & url & r & Hf & E)]]]]; rewrite E in Hin; unfold trace in Hin;
    cbn [fst] in Hin; try (now destruct Hin).
  { destruct Hin as [<-|[]]. discriminate. }
  destruct Hin as [<-|Hin]; [discriminate|].
  destruct (checkResponse_cases h cfg r)
    as [[_ C]|[[_ C]|(body & secrets_ & Hs & Hr & Hsec & C)]];
    rewrite C in Hin; try (now destruct Hin).
  exists cfg, url, r, body, secrets_.
  refine (conj Hf (conj Hs (conj Hr (conj Hsec _)))).
  apply deliverPayload_events in Hin.
  destruct Hin as [[m ->]|[[m ->]|[(v & -> & Hv)
                  |[(Henv & k & v & -> & Hkv)|[Hnenv ->]]]]];
    try discriminate.
  - exact Hv.
  - now split.
  - split; [|now split].
    destruct Hf as (_ & [Hm|Hm] & _); [contradiction|exact Hm].
Qed.

(** An instance of X17: the write of the file mode. *)
Lemma delivery_needs_validated_payload_witness :
  let r := exampleResponse 200 (Some (examplePayload (Some exampleSecrets))) in
  let h := exampleHost "envshed_test_token_abc123" "file" r in
  let e := WriteFileSync (js "/work/out.env") (formatEnvFile exampleSecrets) in
  In e (trace (run h))
  /\ isDelivery e = true
  /\ exists cfg url r' body secrets_,
       Fetched h cfg url r'
       /\ statusCode r' = 200
       /\ result r' = Some body
       /\ secrets body = Some secrets_
       /\ formatEnvFile exampleSecrets = formatEnvFile secrets_.
Proof.
  intros r h e.
  assert (Hin : In e (trace (run h))).
  { vm_compute. right. right. right. left. reflexivity. }
  refine (conj Hin (conj eq_refl _)).
  destruct (delivery_needs_validated_payload h e Hin eq_refl)
    as (cfg & url & r' & body & secrets_ & Hf & Hs & Hr & Hsec & _ & _ & Hc).
  exists cfg, url, r', body, secrets_.
  refine (conj Hf (conj Hs (conj Hr (conj Hsec _)))). now rewrite Hc.
Defined.

(** X18. buildUrl throws exactly when one of the three slugs of the
    configuration holds a surrogate without its partner, and what it throws
    is the URIError of encodeURIComponent, never anything else. *)
Theorem buildUrl_throws_iff_malformed_slug :
  forall cfg,
    (buildUrl cfg = Throw URIError
     <-> isWellFormed (org cfg) = false
         \/ isWellFormed (project cfg) = false
         \/ isWellFormed (environment cfg) = false)
    /\ (forall e, buildUrl cfg = Throw e -> e = URIError).
Proof.
  intros cfg. unfold buildUrl, encodeSlug, andThen. split; [split|].
  - destruct (encodeURIComponent (org cfg)) as [o|] eqn:Eo.
    2:{ intros _. left.
        destruct (isWellFormed (org cfg)) eqn:W; [|reflexivity].
        destruct (encodeURIComponent_total _ W) as [x Hx]. congruence. }
    destruct (encodeURIComponent (project cfg)) as [p|] eqn:Ep.
    2:{ intros _. right. left.
        destruct (isWellFormed (project cfg)) eqn:W; [|reflexivity].
        destruct (encodeURIComponent_total _ W) as [x Hx]. congruence. }
    destruct (encodeURIComponent (environment cfg)) as [e|] eqn:Ee;
      [discriminate|].
    intros _. right. right.
    destruct (isWellFormed (environment cfg)) eqn:W; [|reflexivity].
    destruct (encodeURIComponent_total _ W) as [x Hx]. congruence.
  - intros Hbad.
    destruct (encodeURIComponent (org cfg)) as [o|] eqn:Eo; [|reflexivity].
    destruct (encodeURIComponent (project cfg)) as [p|] eqn:Ep; [|reflexivity].
    destruct (encodeURIComponent (environment cfg)) as [e|] eqn:Ee; [|reflexivity].
    apply encodeURIComponent_Some_wellFormed in Eo, Ep, Ee.
    destruct Hbad as [H|[H|H]]; congruence.
  - intros e.
    destruct (encodeURIComponent (org cfg)); [|now intros [= <-]].
    destruct (encodeURIComponent (project cfg)); [|now intros [= <-]].
    destruct (encodeURIComponent (environment cfg)); [|now intros [= <-]].
    discriminate.
Qed.

(** X19. A failure of the transport ends the run: when the HTTP client fails
    on the request, the run throws that failure after the one request, with
    no second attempt and nothing masked, exported, written or logged. *)
Theorem transport_failure_aborts :
  forall h cfg url what,
    getInputs (inputs h) = Return cfg ->
    exportTo cfg = js "env" \/ exportTo cfg = js "file" ->
    buildUrl cfg = Return url ->
    getJson h url (bearer cfg) = Failed what ->
    run h = ([HttpGetJson url (bearer cfg) ACCEPT], Throw (Foreign what)).
Proof.
  intros h cfg url what Hin Hmode Hurl Hget.
  unfold run. rewrite Hin, bind_lift_return, (exportTo_accepted cfg Hmode).
  unfold fetch. rewrite Hurl, bind_lift_return, bind_emit, Hget. reflexivity.
Qed.

(** An instance of X19: a connection that is reset. *)
Lemma transport_failure_aborts_witness :
  let h := {| inputs := exampleInputs "envshed_test_token_abc123" "env";
              getJson := fun _ _ => Failed (js "read ECONNRESET");
              resolve := fun p => p;
              writeFileSync := fun _ _ => Done tt |} in
  let cfg := exampleCfg "envshed_test_token_abc123" "env" in
  getInputs (inputs h) = Return cfg
  /\ (exportTo cfg = js "env" \/ exportTo cfg = js "file")
  /\ buildUrl cfg = Return exampleUrl
  /\ getJson h exampleUrl (bearer cfg) = Failed (js "read ECONNRESET")
  /\ run h = ([HttpGetJson exampleUrl (bearer cfg) ACCEPT],
              Throw (Foreign (js "read ECONNRESET"))).
Proof.
  intros h cfg.
  assert (Hin : getInputs (inputs h) = Return cfg) by (vm_compute; reflexivity).
  assert (Hurl : buildUrl cfg = Return exampleUrl) by (vm_compute; reflexivity).
  refine (conj Hin (conj (or_introl eq_refl) (conj Hurl (conj eq_refl _)))).
  exact (transport_failure_aborts h cfg exampleUrl _ Hin (or_introl eq_refl)
           Hurl eq_refl).
Defined.

(** ** The token *)

Lemma inputValue_insert_token t (src : gmap string jsstring) :
  inputValue (<["token"%string := t]> src) "token" = t.
Proof. unfold inputValue. now rewrite lookup_insert_eq. Qed.

Lemma inputValue_insert_other t (src : gmap string jsstring) name :
  name <> "token"%string ->
  inputValue (<["token"%string := t]> src) name = inputValue src name.
Proof. intros H. unfold inputValue. now rewrite lookup_insert_ne. Qed.

Lemma getInputs_insert_token t src :
  t <> [] -> inputValue src "token" <> [] ->
  getInputs (<["token"%string := t]> src)
  = match getInputs src with
    | Return cfg => Return (withToken (trim t) cfg)
    | Throw e => Throw e
    end.
Proof.
  intros Ht Hs. rewrite !getInputs_unfold.
  rewrite inputValue_insert_token, !inputValue_insert_other by discriminate.
  apply is_empty_false in Ht, Hs. rewrite Ht, Hs.
  destruct (is_empty (inputValue src "org")); [reflexivity|].
  destruct (is_empty (inputValue src "project")); reflexivity.
Qed.

(** X20. The token reaches the Authorization header and nothing else. With
    a server that answers without looking at the credentials, a run with
    another token makes the same calls, up to the Authorization header of
    the request, and ends the same way: no URL, mask, export, file, info or
    warning and no error depends on the token. *)
Theorem token_reaches_only_the_header :
  forall h t,
    inputValue (inputs h) "token" <> [] ->
    t <> [] ->
    (forall url a b, getJson h url a = getJson h url b) ->
    List.map redact (trace (run (withTokenInput t h)))
    = List.map redact (trace (run h))
    /\ outcome (run (withTokenInput t h)) = outcome (run h).
Proof.
  intros h t Hs Ht Hserver.
  unfold run at 1 3.
  change (inputs (withTokenInput t h)) with (<["token"%string := t]> (inputs h)).
  rewrite (getInputs_insert_token t (inputs h) Ht Hs).
  unfold run.
  destruct (getInputs (inputs h)) as [cfg|e]; [|now split].
  rewrite !bind_lift_return.
  change (exportTo (withToken (trim t) cfg)) with (exportTo cfg).
  destruct (negb (jsstring_eqb (exportTo cfg) (js "env"))
            && negb (jsstring_eqb (exportTo cfg) (js "file"))); [now split|].
  unfold fetch.
  change (buildUrl (withToken (trim t) cfg)) with (buildUrl cfg).
  destruct (buildUrl cfg) as [url|e]; [|now split].
  rewrite !bind_lift_return, !bind_emit.
  change (getJson (withTokenInput t h)) with (getJson h).
  rewrite (Hserver url (bearer (withToken (trim t) cfg)) (bearer cfg)).
  destruct (getJson h url (bearer cfg)) as [r|what]; [|now split].
  unfold external, ret, bind, trace, outcome. cbn [fst snd].
  change (checkResponse (withTokenInput t h) (withToken (trim t) cfg) r)
    with (checkResponse h cfg r).
  destruct (checkResponse h cfg r) as [tr o]. split; reflexivity.
Qed.

(** An instance of X20: the example run with two tokens. *)
Lemma token_reaches_only_the_header_witness :
  let r := exampleResponse 200 (Some (examplePayload (Some exampleSecrets))) in
  let h := exampleHost "envshed_test_token_abc123" "file" r in
  inputValue (inputs h) "token" <> []
  /\ js "another_token" <> []
  /\ (forall url a b, getJson h url a = getJson h url b)
  /\ List.map redact (trace (run (withTokenInput (js "another_token") h)))
     = List.map redact (trace (run h))
  /\ requestCalls (trace (run (withTokenInput (js "another_token") h)))
     = [(exampleUrl, js "Bearer another_token")].
Proof.
  intros r h.
  assert (H1 : inputValue (inputs h) "token" <> []) by (vm_compute; discriminate).
  assert (H2 : js "another_token" <> []) by (vm_compute; discriminate).
  assert (H3 : forall url a b, getJson h url a = getJson h url b)
    by (intros; reflexivity).
  refine (conj H1 (conj H2 (conj H3 _))).
  split; [|vm_compute; reflexivity].
  exact (proj1 (token_reaches_only_the_header h (js "another_token") H1 H2 H3)).
Defined.

(** ** The inputs, continued *)

Lemma orElse_not_empty a b : b <> [] -> orElse a b <> [].
Proof.
  intros Hb. unfold orElse. destruct (is_empty a) eqn:Ha; [exact Hb|].
  now apply is_empty_false.
Qed.

Lemma trimStart_nil_iff s :
  trimStart s = [] <-> List.forallb isWhiteSpace s = true.
Proof.
  induction s as [|c s IH]; [now split|].
  cbn [trimStart forallb]. destruct (isWhiteSpace c); [exact IH|].
  split; discriminate.
Qed.

(** What is left after trimStart starts with no white space. *)
Lemma trimStart_whitespace_only s :
  List.forallb isWhiteSpace (trimStart s) = true -> trimStart s = [].
Proof.
  induction s as [|c s IH]; [reflexivity|].
  cbn [trimStart]. destruct (isWhiteSpace c) eqn:Hc; [exact IH|].
  cbn [forallb]. rewrite Hc. discriminate.
Qed.

Lemma forallb_rev {A} (f : A -> bool) l :
  List.forallb f (rev l) = List.forallb f l.
Proof.
  induction l as [|x l IH]; [reflexivity|].
  cbn [rev forallb]. rewrite forallb_app, IH. cbn [forallb].
  rewrite andb_true_r. apply andb_comm.
Qed.

(** trim leaves nothing exactly of the strings of white space. *)
Lemma trim_nil_iff s : trim s = [] <-> List.forallb isWhiteSpace s = true.
Proof.
  unfold trim, trimEnd. split.
  - intros H. apply trimStart_nil_iff.
    apply (f_equal (@rev codeunit)) in H. rewrite rev_involutive in H.
    cbn [rev] in H. apply trimStart_nil_iff in H. rewrite forallb_rev in H.
    now apply trimStart_whitespace_only.
  - intros H. apply trimStart_nil_iff in H. now rewrite H.
Qed.

(** X21. Which fields of a returned configuration can be empty. The four
    optional fields never are: an input that is empty after the trim was
    replaced by the default. A required field is empty exactly when its
    input is white space only: the check of a required input looks at the
    input before the trim, so such an input passes it. *)
Theorem getInputs_empty_fields :
  forall src cfg,
    getInputs src = Return cfg ->
    environment cfg <> [] /\ apiUrl cfg <> []
    /\ exportTo cfg <> [] /\ filePath cfg <> []
    /\ inputValue src "token" <> [] /\ inputValue src "org" <> []
    /\ inputValue src "project" <> []
    /\ (token cfg = []
        <-> List.forallb isWhiteSpace (inputValue src "token") = true)
    /\ (org cfg = []
        <-> List.forallb isWhiteSpace (inputValue src "org") = true)
    /\ (project cfg = []
        <-> List.forallb isWhiteSpace (inputValue src "project") = true).
Proof.
  intros src cfg. rewrite getInputs_unfold.
  destruct (is_empty (inputValue src "token")) eqn:Ht; [discriminate|].
  destruct (is_empty (inputValue src "org")) eqn:Ho; [discriminate|].
  destruct (is_empty (inputValue src "project")) eqn:Hp; [discriminate|].
  intros [= <-]. cbn [token org project environment apiUrl exportTo filePath].
  apply is_empty_false in Ht, Ho, Hp.
  repeat (split; [apply orElse_not_empty; discriminate|]).
  repeat (split; [assumption|]).
  repeat split; apply trim_nil_iff.
Qed.

(** An instance of X21: a token of two spaces, and optional inputs that are
    empty or white space. *)
Lemma getInputs_empty_fields_witness :
  let src : gmap string jsstring :=
    {[ "token"%string := js "  "; "org"%string := js "o";
       "project"%string := js "p"; "environment"%string := [];
       "api-url"%string := js " "; "export-to"%string := [];
       "file-path"%string := [] ]} in
  exists cfg,
    getInputs src = Return cfg
    /\ token cfg = []
    /\ environment cfg <> [] /\ apiUrl cfg <> []
    /\ exportTo cfg <> [] /\ filePath cfg <> [].
Proof.
  intros src. eexists.
  assert (Hin : getInputs src
                = Return {| token := []; org := js "o"; project := js "p";
                            environment := js "production";
                            apiUrl := js "https://app.envshed.com";
                            exportTo := js "env"; filePath := js ".env" |})
    by (vm_compute; reflexivity).
  split; [exact Hin|].
  destruct (getInputs_empty_fields src _ Hin)
    as (He & Ha & Hx & Hf & _).
  now repeat split.
Defined.

(** ** The entry point *)

Lemma deliverPayload_throws h cfg body secrets_ e :
  outcome (deliverPayload h cfg body secrets_) = Throw e ->
  secrets_ <> []
  /\ exportTo cfg <> js "env"
  /\ writeFileSync h (resolve h (filePath cfg)) (formatEnvFile secrets_)
     = Failed (match e with Foreign what => what | _ => [] end)
  /\ (exists what, e = Foreign what)
  /\ exportCalls (trace (deliverPayload h cfg body secrets_)) = [].
Proof.
  rewrite deliverPayload_unfold.
  destruct secrets_ as [|entry rest]; [discriminate|].
  destruct (jsstring_eqb (exportTo cfg) (js "env")) eqn:Henv; [discriminate|].
  apply jsstring_eqb_neq in Henv. cbv zeta.
  destruct (writeFileSync h (resolve h (filePath cfg))
              (formatEnvFile (entry :: rest))) as [[]|what] eqn:Hw;
    [discriminate|].
  unfold outcome, trace. cbn [fst snd]. intros [= <-].
  split; [discriminate|]. split; [exact Henv|]. split; [reflexivity|].
  split; [now exists what|].
  unfold exportCalls. rewrite !flat_map_app.
  now rewrite no_calls_decryptWarning, no_calls_maskSteps by reflexivity.
Qed.

(** X22. A run that the entry point reports as failed has handed on nothing,
    with one exception. When core.setFailed is called, either the run made
    no mask, no export and no file write, or the failure is that of the
    file write itself in the file mode: then the message is the file
    system's, the write was attempted after the masks, and nothing was
    exported. *)
Theorem reported_failure_has_delivered_nothing :
  forall uriError h message,
    In (SetFailed message) (main uriError h) ->
    (forall e, In e (trace (run h)) -> isDelivery e = false)
    \/ exists cfg secrets_,
         getInputs (inputs h) = Return cfg
         /\ exportTo cfg = js "file"
         /\ writeFileSync h (resolve h (filePath cfg)) (formatEnvFile secrets_)
            = Failed message
         /\ exportCalls (trace (run h)) = [].
Proof.
  intros uriError h message Hin. unfold main in Hin.
  apply in_app_or in Hin. destruct Hin as [Hin|Hin].
  { apply in_map_iff in Hin. destruct Hin as (e & He & _). discriminate. }
  destruct (run_cases h)
    as [(x & _ & E)
       |[(cfg & _ & _ & _ & E)
        |[(cfg & _ & _ & _ & E)
         |[(cfg & url & what & _ & _ & _ & _ & E)
          |(cfg & url & r & Hf & E)]]]]; rewrite E in *;
    unfold trace, outcome in *; cbn [fst snd] in *.
  1-3: left; intros e [].
  { left. intros e [<-|[]]. reflexivity. }
  destruct (checkResponse_cases h cfg r)
    as [[_ C]|[[_ C]|(body & secrets_ & Hs & Hr & Hsec & C)]];
    rewrite C in *; cbn [fst snd] in *.
  1-2: left; intros e [<-|[]]; reflexivity.
  destruct (deliverPayload h cfg body secrets_) as [tr [[]|x]] eqn:D;
    cbn [fst snd] in *; [destruct Hin|].
  destruct Hin as [Hm|[]]. injection Hm as <-.
  pose proof (deliverPayload_throws h cfg body secrets_ x) as T.
  rewrite D in T. unfold outcome, trace in T. cbn [fst snd] in T.
  destruct (T eq_refl) as (_ & Hnenv & Hw & (what & ->) & Hx).
  right. exists cfg, secrets_.
  destruct Hf as (Hcfg & [Hm|Hm] & _); [contradiction|].
  repeat split; try assumption.
Qed.

(** An instance of X22: the invalid mode stdout is reported as a failure,
    and nothing at all was called. *)
Lemma reported_failure_has_delivered_nothing_witness :
  let h := exampleHost "envshed_test_token_abc123" "stdout"
             (exampleResponse 200 (Some (examplePayload (Some exampleSecrets)))) in
  main (js "URI malformed") h = [SetFailed (invalidExportTo (js "stdout"))]
  /\ In (SetFailed (invalidExportTo (js "stdout"))) (main (js "URI malformed") h)
  /\ (forall e, In e (trace (run h)) -> isDelivery e = false).
Proof.
  intros h.
  assert (Hm : main (js "URI malformed") h
               = [SetFailed (invalidExportTo (js "stdout"))])
    by (vm_compute; reflexivity).
  assert (Hin : In (SetFailed (invalidExportTo (js "stdout")))
                  (main (js "URI malformed") h)) by (rewrite Hm; now left).
  refine (conj Hm (conj Hin _)).
  destruct (reported_failure_has_delivered_nothing _ h _ Hin)
    as [H|(cfg & secrets_ & Hcfg & Hfile & _)]; [exact H|].
  vm_compute in Hcfg. injection Hcfg as <-. vm_compute in Hfile. discriminate.
Defined.
